(** * aiida_cusp: submission preparation of [CalculationBase]

    A shallow embedding of [aiida_cusp/calculators/calculation_base.py]
    and the properties of its submission-preparation logic: remote tree
    traversal, restart copy lists, MPI run-line composition and the
    choice between a direct and a Custodian-wrapped run.

    Methods are functions to [result]: a value, a raised exception, or
    no answer of the embedding.  Python strings are [string]s, and
    [pathlib] and [str.format] are embedded on them as far as the module
    uses them.  What the module is handed by AiiDA is a record of what it
    calls: a remote folder is its [listdir], a scheduler its
    [create_job_resource].  The local file system is a tree, threaded
    through the methods that change it together with the [CalcInfo] they
    fill. *)

From Stdlib Require Import ZArith Ascii DecimalString.
From stdpp Require Import gmap strings list fin_maps.

Local Open Scope Z_scope.
Local Open Scope stdpp_scope.

(** ** Python exceptions and results *)

(** The exception classes the module can meet.  [OSError] stands for the
    whole [OSError] hierarchy of Python 3 ([IOError] is an alias,
    [NotADirectoryError], [FileExistsError], [ConnectionResetError] and
    the like are the subclasses selected by [errno]); [OtherError] is any
    class outside of that hierarchy, named by its class name. *)
Inductive exn : Type :=
| OSError (errno : Z)
| KeyError (key : string)
| IndexError
| ValueError (msg : string)
| NotImplementedError
| OtherError (cls : string).

Definition ENOENT : Z := 2.
Definition EEXIST : Z := 17.
Definition ENOTDIR : Z := 20.
Definition ECONNRESET : Z := 104.

(** [isinstance(e, OSError)], the test made by [except OSError]. *)
Definition isinstance_OSError (e : exn) : bool :=
  match e with OSError _ => true | _ => false end.

(** Outcome of a call: a value, a raised exception, [OutOfFuel] when the
    bound put on the recursion depth of the embedding was reached, or
    [Unmodelled] when the call leaves the fragment of Python the
    embedding covers. *)
Inductive result (A : Type) : Type :=
| Ok (a : A)
| Raise (e : exn)
| OutOfFuel
| Unmodelled.
Arguments Ok {A} a.
Arguments Raise {A} e.
Arguments OutOfFuel {A}.
Arguments Unmodelled {A}.

#[global] Instance result_ret : MRet result := fun A a => Ok a.
#[global] Instance result_bind : MBind result := fun A B f m =>
  match m with
  | Ok a => f a
  | Raise e => Raise e
  | OutOfFuel => OutOfFuel
  | Unmodelled => Unmodelled
  end.

#[global] Instance result_fmap : FMap result := fun A B f m =>
  match m with
  | Ok a => Ok (f a)
  | Raise e => Raise e
  | OutOfFuel => OutOfFuel
  | Unmodelled => Unmodelled
  end.

Definition is_Ok {A} (r : result A) : bool :=
  match r with Ok _ => true | _ => false end.

(** ** Python strings and [pathlib] *)

Definition slash : ascii := "/"%char.

(** [s.split('/')] *)
Fixpoint split_slash (s : string) : list string :=
  match s with
  | EmptyString => [""]
  | String c s' =>
      if Ascii.eqb c slash then "" :: split_slash s'
      else match split_slash s' with
           | [] => [String c ""]
           | h :: t => String c h :: t
           end
  end.

(** ['/'.join(l)] *)
Fixpoint join_slash (l : list string) : string :=
  match l with
  | [] => ""
  | [x] => x
  | x :: l' => x +:+ "/" +:+ join_slash l'
  end.

(** [s.lstrip('/')] *)
Fixpoint lstrip_slash (s : string) : string :=
  match s with
  | String c s' => if Ascii.eqb c slash then lstrip_slash s' else s
  | EmptyString => ""
  end.

Fixpoint leading_slashes (s : string) : nat :=
  match s with
  | String c s' => if Ascii.eqb c slash then S (leading_slashes s') else O
  | EmptyString => O
  end.

Fixpoint has_slash (s : string) : bool :=
  match s with
  | EmptyString => false
  | String c s' => Ascii.eqb c slash || has_slash s'
  end.

(** A non-empty string that does not start with a separator. *)
Definition is_relative (s : string) : bool :=
  match s with
  | String c _ => negb (Ascii.eqb c slash)
  | EmptyString => false
  end.

(** The root [pathlib] gives to a string with [n] leading separators. *)
Definition root_of_slashes (n : nat) : string :=
  match n with
  | O => ""
  | 2%nat => "//"
  | _ => "/"
  end.

(** A pure POSIX path as [pathlib] keeps it: the root (empty, ["/"] or
    ["//"]) and the components that follow it. *)
Record PurePath : Type := mkPath { root : string; parts : list string }.

(** The root found by the POSIX flavour's [splitroot]: exactly two leading
    slashes are kept, any other positive number collapses to one. *)
Definition splitroot (s : string) : string * string :=
  match s with
  | String c s' =>
      if Ascii.eqb c slash then
        let stripped := lstrip_slash s in
        if (String.length s - String.length stripped =? 2)%nat
        then ("//", stripped) else ("/", stripped)
      else ("", s)
  | EmptyString => ("", "")
  end.

(** Components kept when a path is parsed: the empty ones and ["."] go. *)
Definition kept_component (x : string) : bool :=
  negb (bool_decide (x = "")) && negb (bool_decide (x = ".")).

Definition components (s : string) : list string :=
  filter (fun x => kept_component x = true) (split_slash s).

(** [pathlib.Path(s)] *)
Definition Path (s : string) : PurePath :=
  let '(r, rel) := splitroot s in mkPath r (components rel).

(** [str(p)] *)
Definition path_str (p : PurePath) : string :=
  let s := root p +:+ join_slash (parts p) in
  if bool_decide (s = "") then "." else s.

Definition is_absolute (p : PurePath) : bool :=
  negb (bool_decide (root p = "")).

(** [p / q]: an absolute right operand replaces the left one. *)
Definition joinpath (p q : PurePath) : PurePath :=
  if is_absolute q then q else mkPath (root p) (parts p ++ parts q).

(** [p.absolute()] in a process whose working directory is [cwd]. *)
Definition absolute (cwd : string) (p : PurePath) : PurePath :=
  if is_absolute p then p else joinpath (Path cwd) p.

(** [str(pathlib.Path(s))] *)
Definition normpath (s : string) : string := path_str (Path s).

(** Names that [pathlib] keeps as one component: not empty, not ["."],
    free of separators.  The names of a directory listing are such. *)
Definition valid_name (x : string) : bool :=
  kept_component x && negb (has_slash x).

(** Paths as [pathlib] makes them: one of its three roots, and
    components that are names. *)
Definition wf_path (p : PurePath) : Prop :=
  (root p = "" ∨ root p = "/" ∨ root p = "//") ∧
  Forall (fun x => valid_name x = true) (parts p).

(** [str] of a relative path given by its components. *)
Definition rel_str (dir : list string) : string := path_str (mkPath "" dir).

(** ** The remote folder *)

(** What the code uses of an AiiDA [RemoteData] node: the path of the
    folder on the remote computer, the computer it lives on, and
    [listdir(relpath)], which returns the names found at a relative path
    or raises. *)
Record RemoteData : Type := mkRemoteData {
  get_remote_path : string;
  computer_uuid : string;
  listdir : string -> result (list string)
}.

(** [listdir] looks at the path it is given, not at its spelling: two
    strings that [pathlib] parses to the same path list the same. *)
Definition listdir_by_path (remote_data : RemoteData) : Prop :=
  ∀ r1 r2 : string, Path r1 = Path r2 →
    listdir remote_data r1 = listdir remote_data r2.

(** [listdir] returns names as a directory holds them. *)
Definition listdir_valid_names (remote_data : RemoteData) : Prop :=
  ∀ (r : string) (names : list string),
    listdir remote_data r = Ok names →
    Forall (fun x => valid_name x = true) names.

(** A traversal entry: [(filename, absolute path, relative path)]. *)
Definition FileEntry : Type := string * string * string.

Definition entry_name (e : FileEntry) : string := e.1.1.
Definition entry_abspath (e : FileEntry) : string := e.1.2.
Definition entry_relpath (e : FileEntry) : string := e.2.

Section RemoteFilelist.

(** Working directory of the process, read by [Path.absolute()]. *)
Variable cwd : string.

(** The body of the [for path in ...] loop of [remote_filelist].  The
    loop carries [relpath] (reassigned in the [except] branch) and
    [filelist]; [recurse] is the recursive call. *)
Fixpoint filelist_loop (recurse : string -> result (list FileEntry))
    (remote_data : RemoteData) (names : list string)
    (relpath : string) (filelist : list FileEntry)
    : result (list FileEntry) :=
  match names with
  | [] => Ok filelist
  | path :: names' =>
      let subpath := relpath +:+ "/" +:+ path in
      match recurse subpath with
      | Ok files =>
          filelist_loop recurse remote_data names' relpath (filelist ++ files)
      | Raise e =>
          if isinstance_OSError e then
            let abspath := get_remote_path remote_data +:+ "/" +:+ subpath in
            let abspath := path_str (absolute cwd (Path abspath)) in
            let relpath := path_str (Path relpath) in
            filelist_loop recurse remote_data names' relpath
              (filelist ++ [(path, abspath, relpath)])
          else Raise e
      | OutOfFuel => OutOfFuel
      | Unmodelled => Unmodelled
      end
  end.

(** [remote_filelist(remote_data, relpath)]; [fuel] bounds the depth of
    the recursion. *)
Fixpoint remote_filelist (fuel : nat) (remote_data : RemoteData)
    (relpath : string) : result (list FileEntry) :=
  match fuel with
  | O => OutOfFuel
  | S fuel' =>
      names ← listdir remote_data relpath;
      filelist_loop (remote_filelist fuel' remote_data) remote_data
        names relpath []
  end.

(** The traversal the specification asks for: the relative directory
    and the absolute path of an entry are computed from the directory
    the entry lies in, and nothing is carried from one entry to the
    next. *)
Fixpoint reference_loop (recurse : string -> result (list FileEntry))
    (remote_data : RemoteData) (names : list string)
    (relpath : string) : result (list FileEntry) :=
  match names with
  | [] => Ok []
  | path :: names' =>
      let subpath := relpath +:+ "/" +:+ path in
      match recurse subpath with
      | Ok files =>
          rest ← reference_loop recurse remote_data names' relpath;
          Ok (files ++ rest)
      | Raise e =>
          if isinstance_OSError e then
            let abspath :=
              path_str (absolute cwd
                (Path (get_remote_path remote_data +:+ "/" +:+ subpath))) in
            rest ← reference_loop recurse remote_data names' relpath;
            Ok ((path, abspath, path_str (Path relpath)) :: rest)
          else Raise e
      | OutOfFuel => OutOfFuel
      | Unmodelled => Unmodelled
      end
  end.

Fixpoint reference_filelist (fuel : nat) (remote_data : RemoteData)
    (relpath : string) : result (list FileEntry) :=
  match fuel with
  | O => OutOfFuel
  | S fuel' =>
      names ← listdir remote_data relpath;
      reference_loop (reference_filelist fuel' remote_data) remote_data
        names relpath
  end.

End RemoteFilelist.

(** ** Remote folders given by a tree *)

(** A remote folder as a finite tree.  Listing a file raises
    [OSError(ENOTDIR)], the signal that the path is not a directory;
    listing a [RBroken e] node raises [e] (a directory the transport fails
    to list); a path that leads nowhere raises [OSError(ENOENT)]. *)
#[warnings="-register-all"]
Inductive rnode : Type :=
| RFile
| RDir (entries : list (string * rnode))
| RBroken (e : exn).

Fixpoint find_child (name : string) (entries : list (string * rnode))
    : option rnode :=
  match entries with
  | [] => None
  | (n, t) :: entries' =>
      if bool_decide (n = name) then Some t else find_child name entries'
  end.

(** The node reached from [t] along the components [comps]; [inr e] when
    the walk fails with [e]. *)
Fixpoint resolve (t : rnode) (comps : list string) : rnode + exn :=
  match comps with
  | [] => inl t
  | c :: comps' =>
      match t with
      | RDir entries =>
          match find_child c entries with
          | Some t' => resolve t' comps'
          | None => inr (OSError ENOENT)
          end
      | RFile => inr (OSError ENOTDIR)
      | RBroken e => inr e
      end
  end.

(** [listdir] of the folder whose content is [t]: the relative path is
    joined to the folder's path, so an absolute [relpath] leaves the
    folder (and finds nothing in this model). *)
Definition tree_listdir (t : rnode) (relpath : string)
    : result (list string) :=
  let p := Path relpath in
  if is_absolute p then Raise (OSError ENOENT)
  else match resolve t (parts p) with
       | inl (RDir entries) => Ok (entries.*1)
       | inl RFile => Raise (OSError ENOTDIR)
       | inl (RBroken e) => Raise e
       | inr e => Raise e
       end.

Definition tree_remote (remote_path uuid : string) (t : rnode) : RemoteData :=
  mkRemoteData remote_path uuid (tree_listdir t).

(** Depth of a tree, the fuel a traversal needs. *)
Fixpoint depth (t : rnode) : nat :=
  match t with
  | RDir entries =>
      S ((fix go (l : list (string * rnode)) : nat :=
            match l with
            | [] => O
            | (_, t') :: l' => Nat.max (depth t') (go l')
            end) entries)
  | _ => O
  end.

(** Well-formed trees: every directory holds valid names, each once. *)
Fixpoint wf_tree (t : rnode) : bool :=
  match t with
  | RDir entries =>
      forallb valid_name entries.*1 && bool_decide (NoDup entries.*1) &&
      (fix go (l : list (string * rnode)) : bool :=
         match l with
         | [] => true
         | (_, t') :: l' => wf_tree t' && go l'
         end) entries
  | _ => true
  end.

(** The nodes of a tree that are not directories, depth first and in
    listing order, each with its directory (as components), its name and
    the exception raised when it is listed. *)
Fixpoint leaf_nodes (dir : list string) (name : string) (t : rnode)
    : list (list string * string * exn) :=
  match t with
  | RFile => [(dir, name, OSError ENOTDIR)]
  | RBroken e => [(dir, name, e)]
  | RDir entries =>
      (fix go (l : list (string * rnode)) :=
         match l with
         | [] => []
         | (n, t') :: l' => leaf_nodes (dir ++ [name]) n t' ++ go l'
         end) entries
  end.

Definition leaf_nodes_of (dir : list string) (entries : list (string * rnode))
    : list (list string * string * exn) :=
  flat_map (fun nc => leaf_nodes dir nc.1 nc.2) entries.

(** The entry expected for the file [name] of the directory [dir] of a
    remote folder at [remote_path]. *)
Definition leaf_entry (cwd remote_path : string)
    (dir : list string) (name : string) : FileEntry :=
  let base := Path (remote_path +:+ "/") in
  (name,
   path_str (absolute cwd (mkPath (root base) (parts base ++ dir ++ [name]))),
   rel_str dir).

(** The first exception among [l] that [except OSError] lets through. *)
Definition first_uncaught (l : list exn) : option exn :=
  head (filter (fun e => isinstance_OSError e = false) l).

(** What a traversal makes of the nodes [l] it meets in turn: an entry
    for each node whose listing raises an [OSError], and the first other
    exception, if any, in place of the list. *)
Fixpoint collect (cwd remote_path : string)
    (l : list (list string * string * exn)) : result (list FileEntry) :=
  match l with
  | [] => Ok []
  | (dir, name, e) :: l' =>
      if isinstance_OSError e then
        rest ← collect cwd remote_path l';
        Ok (leaf_entry cwd remote_path dir name :: rest)
      else Raise e
  end.

(** Result of listing and traversing the node [t] found at [dir]. *)
Definition node_result (cwd remote_path : string) (dir : list string)
    (t : rnode) : result (list FileEntry) :=
  match t with
  | RDir entries => collect cwd remote_path (leaf_nodes_of dir entries)
  | RFile => Raise (OSError ENOTDIR)
  | RBroken e => Raise e
  end.

(** ** The local file system *)

(** The local file system as the tree under its root; a path is looked
    up by the components of its absolute form. *)
#[warnings="-register-all"]
Inductive lnode : Type :=
| LFile
| LDir (entries : list (string * lnode)).

Fixpoint lfind (name : string) (entries : list (string * lnode))
    : option lnode :=
  match entries with
  | [] => None
  | (n, t) :: entries' =>
      if bool_decide (n = name) then Some t else lfind name entries'
  end.

Fixpoint lreplace (name : string) (t : lnode)
    (entries : list (string * lnode)) : list (string * lnode) :=
  match entries with
  | [] => []
  | (n, t') :: entries' =>
      if bool_decide (n = name) then (n, t) :: entries'
      else (n, t') :: lreplace name t entries'
  end.

(** [os.stat]: the node at [k], or the error of the path resolution. *)
Fixpoint os_stat (fs : lnode) (k : list string) : result lnode :=
  match k with
  | [] => Ok fs
  | c :: k' =>
      match fs with
      | LFile => Raise (OSError ENOTDIR)
      | LDir entries =>
          match lfind c entries with
          | Some t => os_stat t k'
          | None => Raise (OSError ENOENT)
          end
      end
  end.

(** [os.mkdir]: creates the last component; [EEXIST] when the path
    exists, [ENOENT] when its parent does not, [ENOTDIR] when a file is
    met on the way. *)
Fixpoint os_mkdir (fs : lnode) (k : list string) : result lnode :=
  match k with
  | [] => Raise (OSError EEXIST)
  | c :: k' =>
      match fs with
      | LFile => Raise (OSError ENOTDIR)
      | LDir entries =>
          match lfind c entries with
          | Some t =>
              t' ← os_mkdir t k';
              Ok (LDir (lreplace c t' entries))
          | None =>
              match k' with
              | [] => Ok (LDir (entries ++ [(c, LDir [])]))
              | _ => Raise (OSError ENOENT)
              end
          end
      end
  end.

(** [Path.exists()] and [Path.is_dir()]: a failed [stat] reads as
    "no". *)
Definition path_exists (fs : lnode) (k : list string) : bool :=
  is_Ok (os_stat fs k).

Definition is_dir (fs : lnode) (k : list string) : bool :=
  match os_stat fs k with
  | Ok (LDir _) => true
  | _ => false
  end.

Definition is_file (fs : lnode) (k : list string) : bool :=
  match os_stat fs k with
  | Ok LFile => true
  | _ => false
  end.

(** No regular file lies at [k] or above it. *)
Definition no_file_on (fs : lnode) (k : list string) : Prop :=
  ∀ q, q `prefix_of` k → is_file fs q = false.

(** The file system [fs'] is [fs] with directories made at [k] and
    above it. *)
Definition grown (fs fs' : lnode) (k : list string) : Prop :=
  (∀ q, is_dir fs' q = true ↔ is_dir fs q = true ∨ q `prefix_of` k) ∧
  (∀ q, is_file fs' q = is_file fs q).

(** [Path.mkdir(parents=False, exist_ok=exist_ok)] *)
Definition mkdir_once (fs : lnode) (k : list string) (exist_ok : bool)
    : result lnode :=
  match os_mkdir fs k with
  | Raise (OSError errno) =>
      if errno =? ENOENT then Raise (OSError errno)
      else if exist_ok && is_dir fs k then Ok fs
      else Raise (OSError errno)
  | r => r
  end.

(** [Path.mkdir(parents=True, exist_ok=exist_ok)]: when a parent is
    missing the parent is made first, with its own parents, and the
    directory is made again.  [n] bounds the recursion on the parents. *)
Fixpoint mkdir_parents (n : nat) (fs : lnode) (k : list string)
    (exist_ok : bool) : result lnode :=
  match os_mkdir fs k with
  | Raise (OSError errno) =>
      if errno =? ENOENT then
        if bool_decide (k = []) then Raise (OSError errno)
        else match n with
             | O => OutOfFuel
             | S n' =>
                 fs' ← mkdir_parents n' fs (removelast k) true;
                 mkdir_once fs' k exist_ok
             end
      else if exist_ok && is_dir fs k then Ok fs
      else Raise (OSError errno)
  | r => r
  end.

Definition Path_mkdir_parents (fs : lnode) (k : list string) : result lnode :=
  mkdir_parents (length k) fs k false.

(** ** AiiDA data handed to and returned by the calculation *)

Inductive pyval : Type :=
| PyInt (z : Z)
| PyStr (s : string)
| PyNone.

(** [str(v)] *)
Definition py_str (v : pyval) : string :=
  match v with
  | PyInt z => NilZero.string_of_int (Z.to_int z)
  | PyStr s => s
  | PyNone => "None"
  end.

(** The job resource built by a scheduler: its [items()] and
    [get_tot_num_mpiprocs()]. *)
Record JobResource : Type := mkJobResource {
  items : list (string * pyval);
  get_tot_num_mpiprocs : Z
}.

Record Scheduler : Type := mkScheduler {
  create_job_resource : gmap string pyval -> result JobResource
}.

Record Computer : Type := mkComputer {
  get_scheduler : Scheduler;
  get_default_mpiprocs_per_machine : option Z;
  get_mpirun_command : list string
}.

Record Code : Type := mkCode {
  code_node_uuid : string;
  get_execname : string;
  computer : Computer
}.

(** The inputs of the process that the module reads. *)
Record Inputs : Type := mkInputs {
  code : Code;
  options_withmpi : bool;
  options_resources : gmap string pyval;
  options_mpirun_extra_params : list string;
  options_submit_script_filename : option string;
  custodian_code : option Code;
  restart_folder : option RemoteData;
  restart_contcar_to_poscar : bool
}.

Record CalculationBase : Type := mkCalculation {
  uuid : string;
  inputs : Inputs
}.

(** [aiida.common.CodeInfo]; a field that was never assigned reads as
    [None]. *)
Record CodeInfo : Type := mkCodeInfo {
  code_uuid : option string;
  cmdline_params : option (list string);
  stdout_name : option string;
  stderr_name : option string;
  withmpi : option bool
}.

Inductive CodeRunMode : Type := SERIAL | PARALLEL.

(** An entry of a copy list: [(computer uuid, source path, target path)]. *)
Definition CopyEntry : Type := string * string * string.

(** [aiida.common.CalcInfo] *)
Record CalcInfo : Type := mkCalcInfo {
  calc_uuid : option string;
  codes_info : list CodeInfo;
  local_copy_list : list CopyEntry;
  remote_copy_list : list CopyEntry;
  remote_symlink_list : list CopyEntry;
  retrieve_temporary_list : list string;
  codes_run_mode : option CodeRunMode
}.

Definition CalcInfo_new : CalcInfo := mkCalcInfo None [] [] [] [] [] None.

(** How the engine reads the [withmpi] of a [CodeInfo] when it writes
    the submit script: the code is run through the MPI launcher as the
    field says, and as the [withmpi] option of the job says when the
    field is unset. *)
Definition runs_with_mpi (option_withmpi : bool) (ci : CodeInfo) : bool :=
  default option_withmpi (withmpi ci).

(** The file names of [aiida_cusp.utils.defaults] the module refers to. *)
Record Defaults : Type := mkDefaults {
  STDERR_FNAME : string;
  STDOUT_FNAME : string;
  CSTDN_SPEC_FNAME : string;
  FNAMES_contcar : string;
  FNAMES_poscar : string
}.

(** ** [str.format] with keyword arguments *)

(** What [str.format] finds in a template, from left to right: the
    characters it copies and the replacement fields it fills. *)
Inductive piece : Type :=
| Literal (c : ascii)
| Field (name : string).

(** How the scan of a template ends: at its end, at a syntax error, or
    at a replacement field the embedding does not cover (attribute or
    index access, a conversion or a format specification). *)
Inductive scan_end : Type :=
| ScanDone
| ScanError (e : exn)
| ScanUnmodelled.

Definition lbrace : ascii := "{"%char.
Definition rbrace : ascii := "}"%char.

Definition field_special (c : ascii) : bool :=
  Ascii.eqb c "."%char || Ascii.eqb c "["%char ||
  Ascii.eqb c "!"%char || Ascii.eqb c ":"%char.

Definition scan_cons (p : piece) (r : list piece * scan_end)
    : list piece * scan_end := (p :: r.1, r.2).

(** The scan; [field] is [Some name] while a replacement field is being
    read, [name] being what was read of it. *)
Fixpoint scan_format (s : string) (field : option string)
    : list piece * scan_end :=
  match s with
  | EmptyString =>
      match field with
      | None => ([], ScanDone)
      | Some _ =>
          ([], ScanError (ValueError "expected '}' before end of string"))
      end
  | String c s' =>
      match field with
      | None =>
          if Ascii.eqb c lbrace then
            match s' with
            | EmptyString =>
                ([], ScanError
                       (ValueError "Single '{' encountered in format string"))
            | String c' s'' =>
                if Ascii.eqb c' lbrace
                then scan_cons (Literal lbrace) (scan_format s'' None)
                else scan_format s' (Some "")
            end
          else if Ascii.eqb c rbrace then
            match s' with
            | EmptyString =>
                ([], ScanError
                       (ValueError "Single '}' encountered in format string"))
            | String c' s'' =>
                if Ascii.eqb c' rbrace
                then scan_cons (Literal rbrace) (scan_format s'' None)
                else ([], ScanError
                            (ValueError
                               "Single '}' encountered in format string"))
            end
          else scan_cons (Literal c) (scan_format s' None)
      | Some name =>
          if Ascii.eqb c rbrace
          then scan_cons (Field name) (scan_format s' None)
          else if Ascii.eqb c lbrace
          then ([], ScanError (ValueError "unexpected '{' in field name"))
          else if field_special c then ([], ScanUnmodelled)
          else scan_format s' (Some (name +:+ String c ""))
      end
  end.

Definition is_digit (c : ascii) : bool :=
  (48 <=? nat_of_ascii c)%nat && (nat_of_ascii c <=? 57)%nat.

(** The largest index of a sequence, on a 64-bit build of CPython. *)
Definition PY_SSIZE_T_MAX : Z := 2 ^ 63 - 1.

(** What [str.format] makes of a field name: the index of a positional
    argument, a keyword, or an error. *)
Inductive field_key : Type :=
| Index (n : Z)
| Keyword
| TooManyDigits.

(** The name is read as a number, digit by digit.  A character that is
    not a digit makes it a keyword; digits whose number would exceed
    [PY_SSIZE_T_MAX] are an error, raised as soon as they are met,
    whatever follows them; the empty name stands for the next
    positional argument, the first one here. *)
Fixpoint get_integer (s : string) (accumulator : Z) : field_key :=
  match s with
  | EmptyString => Index accumulator
  | String c s' =>
      if is_digit c then
        let digitval := Z.of_nat (nat_of_ascii c) - 48 in
        if accumulator >? (PY_SSIZE_T_MAX - digitval) / 10 then TooManyDigits
        else get_integer s' (accumulator * 10 + digitval)
      else Keyword
  end.

(** A field whose name is not read as a keyword: it refers to a
    positional argument or is an error. *)
Definition is_positional (name : string) : bool :=
  match get_integer name 0 with
  | Keyword => false
  | _ => true
  end.

(** The exception raised for such a field when the call has no
    positional argument. *)
Definition positional_error (name : string) : exn :=
  match get_integer name 0 with
  | TooManyDigits => ValueError "Too many decimal digits in format string"
  | _ => IndexError
  end.

(** Filling the fields in turn; the call has no positional argument, so
    a positional field raises [IndexError], digits too many for an index
    raise [ValueError], and a keyword the arguments lack raises
    [KeyError] with the keyword. *)
Fixpoint render (kwargs : gmap string pyval) (ps : list piece)
    (fin : scan_end) (out : string) : result string :=
  match ps with
  | [] =>
      match fin with
      | ScanDone => Ok out
      | ScanError e => Raise e
      | ScanUnmodelled => Unmodelled
      end
  | Literal c :: ps' => render kwargs ps' fin (out +:+ String c "")
  | Field name :: ps' =>
      if is_positional name then Raise (positional_error name)
      else match kwargs !! name with
           | Some v => render kwargs ps' fin (out +:+ py_str v)
           | None => Raise (KeyError name)
           end
  end.

(** [template.format( **kwargs)] *)
Definition py_format (template : string) (kwargs : gmap string pyval)
    : result string :=
  let '(ps, fin) := scan_format template None in
  render kwargs ps fin "".

Definition pieces_fields (ps : list piece) : list string :=
  omap (fun p => match p with Field name => Some name | _ => None end) ps.

(** The replacement fields of a template, in order. *)
Definition template_fields (template : string) : list string :=
  pieces_fields (scan_format template None).1.

(** Templates made of text and keyword fields only. *)
Definition keyword_template (template : string) : Prop :=
  (scan_format template None).2 = ScanDone ∧
  Forall (fun name => is_positional name = false) (template_fields template).

(** [[arg.format( **kwargs) for arg in templates]] *)
Fixpoint format_all (templates : list string) (kwargs : gmap string pyval)
    : result (list string) :=
  match templates with
  | [] => Ok []
  | arg :: templates' =>
      s ← py_format arg kwargs;
      rest ← format_all templates' kwargs;
      Ok (s :: rest)
  end.

(** ** [CalculationBase] *)

Definition set_remote_copy_list (calcinfo : CalcInfo) (l : list CopyEntry)
    : CalcInfo :=
  mkCalcInfo (calc_uuid calcinfo) (codes_info calcinfo)
    (local_copy_list calcinfo) l (remote_symlink_list calcinfo)
    (retrieve_temporary_list calcinfo) (codes_run_mode calcinfo).

(** [name in l] for a list that may hold [None]. *)
Definition py_in (name : string) (l : list (option string)) : bool :=
  bool_decide (Some name ∈ l).

Section Calculation.

Variable cwd : string.
Variable defaults : Defaults.

(** The components under the root of the local path [p]. *)
Definition fs_key (p : PurePath) : list string := parts (absolute cwd p).

(** [restart_files_exclude] *)
Definition restart_files_exclude (self : CalculationBase)
    : list (option string) :=
  [ options_submit_script_filename (inputs self);
    Some (CSTDN_SPEC_FNAME defaults);
    Some "job_tmpl.json";
    Some "calcinfo.json" ].

(** The name under which [restart_copy_remote] copies a file. *)
Definition target_name (overwrite_poscar : bool) (name : string) : string :=
  if bool_decide (name = FNAMES_contcar defaults) && overwrite_poscar
  then FNAMES_poscar defaults else name.

(** One turn of the loop of [restart_copy_remote], on the local file
    system and the [calcinfo] it changes. *)
Definition restart_copy_step (remote_comp_uuid : string)
    (exclude_files : list (option string)) (overwrite_poscar : bool)
    (folder_abspath : string) (st : lnode * CalcInfo) (entry : FileEntry)
    : result (lnode * CalcInfo) :=
  let '(fs, calcinfo) := st in
  let '(name, abspath, relpath) := entry in
  if py_in name exclude_files then Ok (fs, calcinfo)
  else
    let name := target_name overwrite_poscar name in
    let file_relpath := relpath +:+ "/" +:+ name in
    let remote_copy_entry := (remote_comp_uuid, abspath, file_relpath) in
    let calcinfo :=
      set_remote_copy_list calcinfo
        (remote_copy_list calcinfo ++ [remote_copy_entry]) in
    let file_parent_folder := joinpath (Path folder_abspath) (Path relpath) in
    if negb (path_exists fs (fs_key file_parent_folder)) then
      fs' ← Path_mkdir_parents fs (fs_key file_parent_folder);
      Ok (fs', calcinfo)
    else Ok (fs, calcinfo).

Fixpoint restart_copy_loop (remote_comp_uuid : string)
    (exclude_files : list (option string)) (overwrite_poscar : bool)
    (folder_abspath : string) (files : list FileEntry)
    (st : lnode * CalcInfo) : result (lnode * CalcInfo) :=
  match files with
  | [] => Ok st
  | entry :: files' =>
      st' ← restart_copy_step remote_comp_uuid exclude_files
              overwrite_poscar folder_abspath st entry;
      restart_copy_loop remote_comp_uuid exclude_files overwrite_poscar
        folder_abspath files' st'
  end.

(** [restart_copy_remote(folder, calcinfo)]: [folder_abspath] is
    [folder.abspath], [fs] the local file system; the changed file
    system and [calcinfo] are returned. *)
Definition restart_copy_remote (fuel : nat) (self : CalculationBase)
    (folder_abspath : string) (fs : lnode) (calcinfo : CalcInfo)
    : result (lnode * CalcInfo) :=
  match restart_folder (inputs self) with
  | None => Raise (OtherError "AttributeError")
  | Some remote_data =>
      let remote_comp_uuid := computer_uuid remote_data in
      let exclude_files := restart_files_exclude self in
      let overwrite_poscar := restart_contcar_to_poscar (inputs self) in
      files ← remote_filelist cwd fuel remote_data ".";
      restart_copy_loop remote_comp_uuid exclude_files overwrite_poscar
        folder_abspath files (fs, calcinfo)
  end.

(** The local directory [restart_copy_remote] wants for a file found
    on the remote: [folder.abspath / relpath], as components. *)
Definition local_parent (folder_abspath : string) (entry : FileEntry)
    : list string :=
  fs_key (joinpath (Path folder_abspath) (Path (entry_relpath entry))).

(** The copy instruction [restart_copy_remote] writes for a file. *)
Definition copy_entry_of (remote_comp_uuid : string)
    (overwrite_poscar : bool) (entry : FileEntry) : CopyEntry :=
  (remote_comp_uuid, entry_abspath entry,
   entry_relpath entry +:+ "/" +:+
     target_name overwrite_poscar (entry_name entry)).

(** The resource request of [vasp_calc_mpi_args] once the default of
    the computer was stored in it. *)
Definition resources_with_default (self : CalculationBase)
    : gmap string pyval :=
  let computer := computer (code (inputs self)) in
  let resources := options_resources (inputs self) in
  match get_default_mpiprocs_per_machine computer with
  | Some default_cpus_machine =>
      <["default_mpiprocs_per_machine" := PyInt default_cpus_machine]>
        resources
  | None => resources
  end.


(** The [job_resource] built in [vasp_calc_mpi_args]. *)
Definition vasp_job_resource (self : CalculationBase) : result JobResource :=
  let scheduler := get_scheduler (computer (code (inputs self))) in
  create_job_resource scheduler (resources_with_default self).

(** The [mpi_arg_dict] built in [vasp_calc_mpi_args]. *)
Definition mpi_arg_dict_of (job_resource : JobResource)
    : gmap string pyval :=
  foldl (fun d kv => <[kv.1 := kv.2]> d)
    {["tot_num_mpiprocs" := PyInt (get_tot_num_mpiprocs job_resource)]}
    (items job_resource).

(** [vasp_calc_mpi_args] *)
Definition vasp_calc_mpi_args (self : CalculationBase)
    : result (list string * list string) :=
  job_resource ← vasp_job_resource self;
  let mpi_arg_dict := mpi_arg_dict_of job_resource in
  let mpirun_command :=
    get_mpirun_command (computer (code (inputs self))) in
  mpi_base_args ← format_all mpirun_command mpi_arg_dict;
  let mpi_extra_args := options_mpirun_extra_params (inputs self) in
  Ok (mpi_base_args, mpi_extra_args).

(** [vasp_run_line] *)
Definition vasp_run_line (self : CalculationBase) : result (list string) :=
  let vasp_exec := [get_execname (code (inputs self))] in
  if options_withmpi (inputs self) then
    '(mpicmd, mpiextra) ← vasp_calc_mpi_args self;
    Ok (mpicmd ++ mpiextra ++ vasp_exec)
  else Ok vasp_exec.

(** The two methods a subclass has to implement, as [CalculationBase]
    has them. *)
Definition create_inputs_for_restart_run (self : CalculationBase)
    (folder_abspath : string) (fs : lnode) (calcinfo : CalcInfo)
    : result (lnode * CalcInfo) :=
  Raise NotImplementedError.

Definition create_inputs_for_regular_run (self : CalculationBase)
    (folder_abspath : string) (fs : lnode) (calcinfo : CalcInfo)
    : result (lnode * CalcInfo) :=
  Raise NotImplementedError.

(** The type of these methods. *)
Definition InputsWriter : Type :=
  CalculationBase -> string -> lnode -> CalcInfo -> result (lnode * CalcInfo).

(** [prepare_for_submission(folder)], for a class whose two methods
    are [restart_run] and [regular_run]. *)
Definition prepare_for_submission (restart_run regular_run : InputsWriter)
    (self : CalculationBase) (folder_abspath : string) (fs : lnode)
    : result (lnode * CalcInfo) :=
  let codeinfo :=
    match custodian_code (inputs self) with
    | None =>
        {| code_uuid := Some (code_node_uuid (code (inputs self)));
           cmdline_params := None;
           stdout_name := Some (STDOUT_FNAME defaults);
           stderr_name := Some (STDERR_FNAME defaults);
           withmpi := None |}
    | Some custodian =>
        {| code_uuid := Some (code_node_uuid custodian);
           cmdline_params := Some ["run"; CSTDN_SPEC_FNAME defaults];
           stdout_name := None;
           stderr_name := None;
           withmpi := Some false |}
    end in
  let calcinfo :=
    {| calc_uuid := Some (uuid self);
       codes_info := [codeinfo];
       local_copy_list := [];
       remote_copy_list := [];
       remote_symlink_list := [];
       retrieve_temporary_list := [];
       codes_run_mode := Some SERIAL |} in
  match restart_folder (inputs self) with
  | Some _ => restart_run self folder_abspath fs calcinfo
  | None => regular_run self folder_abspath fs calcinfo
  end.

(** The method of the subclass that [prepare_for_submission] calls. *)
Definition inputs_writer (restart_run regular_run : InputsWriter)
    (self : CalculationBase) : InputsWriter :=
  match restart_folder (inputs self) with
  | Some _ => restart_run
  | None => regular_run
  end.

(** Methods that leave the codes of the [calcinfo] they fill as they
    are. *)
Definition keeps_codes_info (writer : InputsWriter) : Prop :=
  ∀ self folder_abspath fs calcinfo fs' calcinfo',
    writer self folder_abspath fs calcinfo = Ok (fs', calcinfo') →
    codes_info calcinfo' = codes_info calcinfo.

End Calculation.

(** ** Schedulers *)



(** A scheduler that allots whole machines, as an instance: the request
    names the machines and, itself or by the default, the processes per
    machine. *)
Definition node_number_scheduler : Scheduler :=
  mkScheduler (fun resources =>
    let per_machine :=
      match resources !! "num_mpiprocs_per_machine" with
      | Some v => Some v
      | None => resources !! "default_mpiprocs_per_machine"
      end in
    match resources !! "num_machines", per_machine with
    | Some (PyInt n), Some (PyInt p) =>
        Ok (mkJobResource
              [("num_machines", PyInt n); ("num_mpiprocs_per_machine", PyInt p)]
              (n * p))
    | _, _ => Raise (ValueError "invalid resources")
    end).

(** ** An example submission *)

Module Example.

Definition defaults : Defaults :=
  mkDefaults "aiida.err" "aiida.out" "cstdn_spec.yaml" "CONTCAR" "POSCAR".

Definition cwd : string := "/home/aiida".

(** The remote folder of the scenario of the specification. *)
Definition tree : rnode :=
  RDir [("a", RDir [("CONTCAR", RFile); ("OUTCAR", RFile)]);
        ("b", RDir [("job_tmpl.json", RFile)])].

Definition remote : RemoteData :=
  tree_remote "/scratch/run1" "computer-uuid" tree.

Definition cluster : Computer :=
  mkComputer node_number_scheduler (Some 16)
    ["mpirun"; "-np"; "{tot_num_mpiprocs}"].

Definition vasp : Code := mkCode "vasp-uuid" "vasp_std" cluster.

Definition custodian : Code := mkCode "custodian-uuid" "cstdn" cluster.

Definition resources : gmap string pyval := {["num_machines" := PyInt 2]}.

(** A restart run started directly. *)
Definition direct : CalculationBase :=
  mkCalculation "calc-uuid"
    (mkInputs vasp true resources ["--bind-to"; "core"]
       (Some "_aiidasubmit.sh") None (Some remote) true).

(** The same run wrapped by Custodian. *)
Definition supervised : CalculationBase :=
  mkCalculation "calc-uuid"
    (mkInputs vasp true resources ["--bind-to"; "core"]
       (Some "_aiidasubmit.sh") (Some custodian) (Some remote) true).

(** A remote folder with a directory that the transport fails to
    list: the connection is reset. *)
Definition flaky_tree : rnode :=
  RDir [("OUTCAR", RFile);
        ("data", RBroken (OSError ECONNRESET));
        ("CONTCAR", RFile)].

Definition flaky_remote : RemoteData :=
  tree_remote "/scratch/run1" "computer-uuid" flaky_tree.

(** A remote folder in which excluded names occur as the name of a
    directory and in another case. *)
Definition names_tree : rnode :=
  RDir [("job_tmpl.json", RDir [("OUTCAR", RFile)]);
        ("d", RDir [("Job_tmpl.json", RFile);
                    ("e", RDir [("calcinfo.json", RFile)])])].

Definition names_run : CalculationBase :=
  mkCalculation "calc-uuid"
    (mkInputs vasp true resources [] (Some "_aiidasubmit.sh") None
       (Some (tree_remote "/scratch/run1" "computer-uuid" names_tree)) true).



(** The folder handed to [prepare_for_submission], and a local file
    system that holds this folder only. *)
Definition folder : string := "/tmp/aiida-folder".
Definition fs : lnode := LDir [("tmp", LDir [("aiida-folder", LDir [])])].

(** The file system and the copy list once the remote folder was
    copied for a restart. *)
Definition fs_after : lnode :=
  LDir [("tmp", LDir [("aiida-folder", LDir [("a", LDir [])])])].

Definition calcinfo_after : CalcInfo :=
  mkCalcInfo None [] []
    [("computer-uuid", "/scratch/run1/a/CONTCAR", "a/POSCAR");
     ("computer-uuid", "/scratch/run1/a/OUTCAR", "a/OUTCAR")]
    [] [] None.

(** The methods of a subclass: a restart copies the remote folder, a
    regular run writes nothing that matters here. *)
Definition restart_run : InputsWriter :=
  restart_copy_remote cwd defaults 3.

Definition regular_run : InputsWriter :=
  fun _ _ fs calcinfo => Ok (fs, calcinfo).

End Example.

(** ** Notions used by the further properties *)

(** The exception raised by the listing of a node that is not a
    directory; a directory has none. *)
Definition listing_error (t : rnode) : option exn :=
  match t with
  | RFile => Some (OSError ENOTDIR)
  | RBroken e => Some e
  | RDir _ => None
  end.

(** The components of the path of a node met by a traversal, from the
    folder down to its name. *)
Definition leaf_path (x : list string * string * exn) : list string :=
  x.1.1 ++ [x.1.2].

(** Strings without a brace: [str.format] has nothing to fill in
    them. *)
Fixpoint brace_free (s : string) : bool :=
  match s with
  | EmptyString => true
  | String c s' =>
      negb (Ascii.eqb c lbrace) && negb (Ascii.eqb c rbrace) && brace_free s'
  end.

(** A path that lies above another one. *)
Definition strictly_above (q k : list string) : Prop :=
  q `prefix_of` k ∧ q ≠ k.

(** ** The inputs after [vasp_calc_mpi_args] *)

(** The same process with other [resources] among its options. *)
Definition with_resources (self : CalculationBase)
    (resources : gmap string pyval) : CalculationBase :=
  let i := inputs self in
  mkCalculation (uuid self)
    (mkInputs (code i) (options_withmpi i) resources
       (options_mpirun_extra_params i) (options_submit_script_filename i)
       (custodian_code i) (restart_folder i) (restart_contcar_to_poscar i)).

(** The process as a call of [vasp_calc_mpi_args] leaves it.  The
    [resources] the method reads are the dictionary that the inputs
    hold, and [resources['default_mpiprocs_per_machine'] = ...] stores
    the default of the computer in this very dictionary, before the
    scheduler is asked for anything: the inputs keep the key, also when
    the call raises. *)
Definition inputs_after_mpi_args (self : CalculationBase) : CalculationBase :=
  with_resources self (resources_with_default self).

(** ** [setup_custodian_settings] *)

(** What [inputs.custodian.get(..)] returns for [settings] and for
    [handlers]: [None] when the input is absent, a mapping (a namespace
    of the inputs, a [Dict] node), or a [List] node. *)
Inductive custodian_input (Mapping : Type) : Type :=
| InputAbsent
| InputMapping (m : Mapping)
| InputList.
Arguments InputAbsent {Mapping}.
Arguments InputMapping {Mapping} m.
Arguments InputList {Mapping}.

(** [dict(x)]: a mapping is copied, [None] is not iterable; what
    [dict] makes of the items of a [List] node is not covered. *)
Definition py_dict {Mapping : Type} (x : custodian_input Mapping)
    : result Mapping :=
  match x with
  | InputMapping m => Ok m
  | InputAbsent => Raise (OtherError "TypeError")
  | InputList => Unmodelled
  end.

Section SetupCustodianSettings.

Variable defaults : Defaults.

(** The class [CustodianSettings] of [aiida_cusp.utils.custodian] and
    its constructor, which the module imports and calls. *)
Variable Mapping : Type.
Variable CustodianSettings : Type.
Variable CustodianSettings_init :
  list string -> string -> string -> Mapping -> Mapping -> bool ->
  result CustodianSettings.

(** [setup_custodian_settings(is_neb)]; [custodian_settings] and
    [custodian_handlers] are what the inputs hold under [custodian]. *)
Definition setup_custodian_settings (self : CalculationBase)
    (custodian_settings custodian_handlers : custodian_input Mapping)
    (is_neb : bool) : result CustodianSettings :=
  settings ← py_dict custodian_settings;
  handlers ← py_dict custodian_handlers;
  vasp_cmd ← vasp_run_line self;
  let stdout := STDOUT_FNAME defaults in
  let stderr := STDERR_FNAME defaults in
  CustodianSettings_init vasp_cmd stdout stderr settings handlers is_neb.

End SetupCustodianSettings.

(** ** A second example folder *)

Module Restart.

(** A remote folder with a file two directories down and with a
    directory that holds both a CONTCAR and a POSCAR file. *)
Definition tree : rnode :=
  RDir [("run", RDir [("sub", RDir [("OUTCAR", RFile)])]);
        ("relax", RDir [("CONTCAR", RFile); ("POSCAR", RFile)])].

Definition remote : RemoteData :=
  tree_remote "/scratch/run2" "computer-uuid" tree.

Definition run : CalculationBase :=
  mkCalculation "calc-uuid"
    (mkInputs Example.vasp true Example.resources []
       (Some "_aiidasubmit.sh") None (Some remote) true).

(** What the traversal of the folder returns. *)
Definition files : list FileEntry :=
  [("OUTCAR", "/scratch/run2/run/sub/OUTCAR", "run/sub");
   ("CONTCAR", "/scratch/run2/relax/CONTCAR", "relax");
   ("POSCAR", "/scratch/run2/relax/POSCAR", "relax")].

(** Local file systems in which the folder handed to the method holds
    a regular file, named as a directory of the remote folder is. *)
Definition fs_run_is_file : lnode :=
  LDir [("tmp", LDir [("aiida-folder", LDir [("run", LFile)])])].

Definition fs_a_is_file : lnode :=
  LDir [("tmp", LDir [("aiida-folder", LDir [("a", LFile)])])].

(** The same restart with [contcar_to_poscar] switched off. *)
Definition run_keep_names : CalculationBase :=
  mkCalculation "calc-uuid"
    (mkInputs Example.vasp true Example.resources []
       (Some "_aiidasubmit.sh") None (Some remote) false).

(** The file system and the copy lists once the folder was copied. *)
Definition fs_after : lnode :=
  LDir [("tmp",
         LDir [("aiida-folder",
                LDir [("run", LDir [("sub", LDir [])]);
                      ("relax", LDir [])])])].

Definition calcinfo_after : CalcInfo :=
  mkCalcInfo None [] []
    [("computer-uuid", "/scratch/run2/run/sub/OUTCAR", "run/sub/OUTCAR");
     ("computer-uuid", "/scratch/run2/relax/CONTCAR", "relax/POSCAR");
     ("computer-uuid", "/scratch/run2/relax/POSCAR", "relax/POSCAR")]
    [] [] None.

Definition calcinfo_keep_names : CalcInfo :=
  mkCalcInfo None [] []
    [("computer-uuid", "/scratch/run2/run/sub/OUTCAR", "run/sub/OUTCAR");
     ("computer-uuid", "/scratch/run2/relax/CONTCAR", "relax/CONTCAR");
     ("computer-uuid", "/scratch/run2/relax/POSCAR", "relax/POSCAR")]
    [] [] None.

End Restart.

(** * Properties *)

(** ** Strings and paths *)

Lemma string_app_cons (c : ascii) (a b : string) :
  String c a +:+ b = String c (a +:+ b).
Proof. done. Qed.

Lemma string_app_nil_l (s : string) : "" +:+ s = s.
Proof. done. Qed.

Lemma string_app_nil_r (s : string) : s +:+ "" = s.
Proof. induction s as [|c s IH]; [done|]. by rewrite string_app_cons, IH. Qed.

Lemma string_app_assoc (a b c : string) : (a +:+ b) +:+ c = a +:+ (b +:+ c).
Proof.
  induction a as [|x a IH]; [done|]. by rewrite !string_app_cons, IH.
Qed.

Lemma split_slash_not_nil (s : string) : split_slash s ≠ [].
Proof.
  induction s as [|c s IH]; [done|]. simpl.
  destruct (Ascii.eqb c slash); [done|]. by destruct (split_slash s).
Qed.

(** Splitting at a separator put between two strings. *)
Lemma split_slash_app (a b : string) :
  split_slash (a +:+ "/" +:+ b) = split_slash a ++ split_slash b.
Proof.
  induction a as [|c a IH]; [done|].
  rewrite string_app_cons. simpl. rewrite IH.
  destruct (Ascii.eqb c slash); [done|].
  pose proof (split_slash_not_nil a) as Ha.
  by destruct (split_slash a).
Qed.

Lemma components_app (a b : string) :
  components (a +:+ "/" +:+ b) = components a ++ components b.
Proof. unfold components. by rewrite split_slash_app, filter_app. Qed.

Lemma split_slash_no_slash (s : string) :
  has_slash s = false → split_slash s = [s].
Proof.
  induction s as [|c s IH]; [done|]. simpl. intros H.
  apply orb_false_iff in H as [Hc Hs]. rewrite Hc, (IH Hs). done.
Qed.

Lemma split_slash_has_no_slash (s x : string) :
  x ∈ split_slash s → has_slash x = false.
Proof.
  revert x. induction s as [|c s IH]; simpl; intros x Hx.
  - apply list_elem_of_singleton in Hx. by subst.
  - destruct (Ascii.eqb c slash) eqn:Hc.
    + apply elem_of_cons in Hx as [->|Hx]; [done|]. by apply IH.
    + pose proof (split_slash_not_nil s) as Hs.
      destruct (split_slash s) as [|h t]; [done|].
      apply elem_of_cons in Hx as [->|Hx].
      * simpl. rewrite Hc. apply IH. by left.
      * apply IH. by right.
Qed.

(** Number of leading separators of a string. *)
Lemma lstrip_slash_length (s : string) :
  (String.length s - String.length (lstrip_slash s))%nat = leading_slashes s.
Proof.
  induction s as [|c s IH]; [done|]. simpl.
  destruct (Ascii.eqb c slash); [|simpl; lia].
  rewrite <- IH.
  assert (String.length (lstrip_slash s) ≤ String.length s)%nat; [|lia].
  clear IH. induction s as [|d s IH]; simpl; [lia|].
  destruct (Ascii.eqb d slash); simpl; lia.
Qed.

Lemma splitroot_eq (s : string) :
  splitroot s = (root_of_slashes (leading_slashes s), lstrip_slash s).
Proof.
  destruct s as [|c s]; [done|]. unfold splitroot.
  rewrite lstrip_slash_length. simpl.
  destruct (Ascii.eqb c slash) eqn:Hc; [|done].
  destruct (leading_slashes s) as [|[|n]]; done.
Qed.

Lemma Path_eq (s : string) :
  Path s = mkPath (root_of_slashes (leading_slashes s))
                  (components (lstrip_slash s)).
Proof. unfold Path. by rewrite splitroot_eq. Qed.

Lemma is_relative_leading (s : string) :
  is_relative s = true → leading_slashes s = O ∧ lstrip_slash s = s.
Proof.
  destruct s as [|c s]; [done|]. simpl.
  by destruct (Ascii.eqb c slash).
Qed.

Lemma Path_relative (s : string) :
  is_relative s = true → Path s = mkPath "" (components s).
Proof.
  intros [H1 H2]%is_relative_leading. by rewrite Path_eq, H1, H2.
Qed.

Lemma is_relative_app (a b : string) :
  is_relative a = true → is_relative (a +:+ b) = true.
Proof. by destruct a. Qed.

(** A relative suffix changes neither the root nor what is stripped. *)
Lemma leading_slashes_app (a b : string) :
  is_relative b = true →
  leading_slashes (a +:+ b) = leading_slashes a ∧
  lstrip_slash (a +:+ b) = lstrip_slash a +:+ b.
Proof.
  intros Hb. induction a as [|c a [IH1 IH2]].
  - by apply is_relative_leading.
  - rewrite string_app_cons. simpl.
    destruct (Ascii.eqb c slash); [by rewrite IH1|done].
Qed.

Lemma lstrip_slash_dir (a : string) :
  lstrip_slash (a +:+ "/") = "" ∨
  ∃ x, lstrip_slash (a +:+ "/") = x +:+ "/".
Proof.
  induction a as [|c a IH]; [by left|].
  rewrite string_app_cons. simpl.
  destruct (Ascii.eqb c slash); [done|].
  right. by exists (String c a).
Qed.

Lemma components_nil : components "" = [].
Proof. done. Qed.

Lemma components_dir (x : string) : components (x +:+ "/") = components x.
Proof.
  rewrite <- (string_app_nil_r (x +:+ "/")), string_app_assoc.
  by rewrite components_app, components_nil, app_nil_r.
Qed.

(** The path made of a folder path, a separator and a relative path. *)
Lemma Path_under (base sub : string) :
  is_relative sub = true →
  Path (base +:+ "/" +:+ sub) =
  mkPath (root (Path (base +:+ "/")))
         (parts (Path (base +:+ "/")) ++ components sub).
Proof.
  intros Hsub.
  rewrite <- string_app_assoc, !Path_eq. simpl.
  destruct (leading_slashes_app (base +:+ "/") sub Hsub) as [-> ->].
  f_equal.
  destruct (lstrip_slash_dir base) as [->|[x ->]]; [done|].
  by rewrite string_app_assoc, components_app, components_dir.
Qed.

(** Components as [pathlib] keeps them: not empty, not ["."], and free
    of separators. *)
Lemma components_kept (s x : string) :
  x ∈ components s → kept_component x = true ∧ has_slash x = false.
Proof.
  unfold components. intros [Hk Hx]%list_elem_of_filter.
  split; [done|]. by eapply split_slash_has_no_slash.
Qed.

Lemma components_single (x : string) :
  kept_component x = true → has_slash x = false → components x = [x].
Proof.
  intros Hk Hs. unfold components. rewrite (split_slash_no_slash x Hs).
  rewrite filter_cons, filter_nil. by destruct (decide _).
Qed.

Lemma components_join (l : list string) :
  Forall (fun x => kept_component x = true ∧ has_slash x = false) l →
  components (join_slash l) = l.
Proof.
  induction 1 as [|x l [Hk Hs] Hl IH]; [done|].
  destruct l as [|y l].
  - by apply components_single.
  - change (join_slash (x :: y :: l))
      with (x +:+ "/" +:+ join_slash (y :: l)).
    by rewrite components_app, IH, components_single.
Qed.

Lemma kept_component_relative (x : string) :
  kept_component x = true → has_slash x = false → is_relative x = true.
Proof.
  destruct x as [|c x]; [done|]. simpl. intros _ H.
  apply orb_false_iff in H as [-> _]. done.
Qed.

Lemma join_slash_relative (x : string) (l : list string) :
  is_relative x = true → is_relative (join_slash (x :: l)) = true.
Proof.
  intros Hx. destruct l as [|y l]; [done|].
  change (join_slash (x :: y :: l)) with (x +:+ "/" +:+ join_slash (y :: l)).
  by apply is_relative_app.
Qed.

Lemma rel_str_spec (dir : list string) :
  Forall (fun x => kept_component x = true ∧ has_slash x = false) dir →
  is_relative (rel_str dir) = true ∧ components (rel_str dir) = dir.
Proof.
  intros Hdir. unfold rel_str, path_str. simpl. rewrite string_app_nil_l.
  destruct dir as [|x l]; [done|].
  assert (is_relative (join_slash (x :: l)) = true) as Hrel.
  { apply join_slash_relative. inversion Hdir as [|? ? [Hk Hs] ?]; subst.
    by apply kept_component_relative. }
  rewrite bool_decide_eq_false_2.
  - split; [done|]. by apply components_join.
  - intros Heq. rewrite Heq in Hrel. done.
Qed.

Lemma components_Forall (s : string) :
  Forall (fun x => kept_component x = true ∧ has_slash x = false)
    (components s).
Proof. apply Forall_forall. intros x. apply components_kept. Qed.

(** Normalising a relative path keeps it relative and keeps its
    components. *)
Lemma normpath_relative (r : string) :
  is_relative r = true →
  path_str (Path r) = rel_str (components r) ∧
  is_relative (path_str (Path r)) = true ∧
  components (path_str (Path r)) = components r.
Proof.
  intros Hr. rewrite (Path_relative r Hr).
  split; [done|]. apply rel_str_spec, components_Forall.
Qed.

Lemma subpath_relative (r x : string) :
  is_relative r = true → is_relative (r +:+ "/" +:+ x) = true.
Proof. apply is_relative_app. Qed.

Lemma abspath_same_components (cwd base s1 s2 : string) :
  is_relative s1 = true → is_relative s2 = true →
  components s1 = components s2 →
  path_str (absolute cwd (Path (base +:+ "/" +:+ s1))) =
  path_str (absolute cwd (Path (base +:+ "/" +:+ s2))).
Proof.
  intros H1 H2 Heq. by rewrite (Path_under base s1 H1), (Path_under base s2 H2), Heq.
Qed.

(** ** [str] and [Path] are inverse of each other *)

Lemma valid_name_spec (x : string) :
  valid_name x = true ↔ kept_component x = true ∧ has_slash x = false.
Proof.
  unfold valid_name. rewrite andb_true_iff, negb_true_iff. done.
Qed.

Lemma components_valid (s : string) :
  Forall (fun x => valid_name x = true) (components s).
Proof.
  apply Forall_forall. intros x Hx. apply valid_name_spec.
  by eapply components_kept.
Qed.

Lemma valid_name_components (x : string) :
  valid_name x = true → components x = [x].
Proof.
  intros [Hk Hs%negb_true_iff]%andb_true_iff. by apply components_single.
Qed.

Lemma Forall_valid_kept (l : list string) :
  Forall (fun x => valid_name x = true) l →
  Forall (fun x => kept_component x = true ∧ has_slash x = false) l.
Proof.
  intros Hl. eapply Forall_impl; [exact Hl|]. intros x. apply valid_name_spec.
Qed.

Lemma wf_path_Path (s : string) : wf_path (Path s).
Proof.
  rewrite Path_eq. split; [|apply components_valid]. simpl.
  destruct (leading_slashes s) as [|[|[|n]]]; auto.
Qed.

Lemma wf_path_joinpath (p q : PurePath) :
  wf_path p → wf_path q → wf_path (joinpath p q).
Proof.
  intros [Hp1 Hp2] [Hq1 Hq2]. unfold joinpath.
  destruct (is_absolute q); [done|]. split; [done|]. by apply Forall_app.
Qed.

Lemma wf_path_absolute (cwd : string) (p : PurePath) :
  wf_path p → wf_path (absolute cwd p).
Proof.
  intros Hp. unfold absolute. destruct (is_absolute p); [done|].
  apply wf_path_joinpath; [apply wf_path_Path|done].
Qed.

Lemma join_slash_leading (l : list string) :
  Forall (fun x => valid_name x = true) l →
  leading_slashes (join_slash l) = O ∧ lstrip_slash (join_slash l) = join_slash l.
Proof.
  intros Hl. destruct l as [|x l]; [done|].
  apply is_relative_leading, join_slash_relative.
  apply Forall_cons in Hl as [[Hk Hs]%valid_name_spec _].
  by apply kept_component_relative.
Qed.

Lemma Path_path_str (p : PurePath) : wf_path p → Path (path_str p) = p.
Proof.
  destruct p as [r l]. intros [Hr Hl]. simpl in *.
  destruct Hr as [->|[->| ->]].
  - destruct (rel_str_spec l (Forall_valid_kept l Hl)) as [Hrel Hcomp].
    change (path_str (mkPath "" l)) with (rel_str l).
    by rewrite (Path_relative _ Hrel), Hcomp.
  - unfold path_str. simpl.
    rewrite Path_eq. change ("/" +:+ join_slash l) with (String slash (join_slash l)).
    simpl. destruct (join_slash_leading l Hl) as [-> ->]. simpl.
    by rewrite (components_join l (Forall_valid_kept l Hl)).
  - unfold path_str. simpl.
    rewrite Path_eq.
    change ("//" +:+ join_slash l)
      with (String slash (String slash (join_slash l))).
    simpl. destruct (join_slash_leading l Hl) as [-> ->]. simpl.
    by rewrite (components_join l (Forall_valid_kept l Hl)).
Qed.

(** The absolute path recorded for [name] found in [r]: its last
    component is [name]. *)
Lemma abspath_last (cwd base r name : string) :
  is_relative r = true → valid_name name = true →
  last (parts (Path (path_str
          (absolute cwd (Path (base +:+ "/" +:+ r +:+ "/" +:+ name))))))
  = Some name.
Proof.
  intros Hr Hname.
  rewrite Path_path_str; [|apply wf_path_absolute; apply wf_path_Path].
  rewrite (Path_under base _ (subpath_relative r name Hr)).
  rewrite components_app, (valid_name_components name Hname).
  unfold absolute, joinpath.
  destruct (is_absolute (mkPath _ _)); simpl;
    rewrite ?app_assoc; apply last_snoc.
Qed.

(** ** The entries of a traversal *)

Section TraversalEntries.
Variable cwd : string.
Variable remote_data : RemoteData.
Variable Q : string → Prop.
Variable P : FileEntry → Prop.
Hypothesis Hnames :
  ∀ r names, listdir remote_data r = Ok names → Forall Q names.
Hypothesis HP :
  ∀ r name, is_relative r = true → Q name →
    P (name,
       path_str (absolute cwd
         (Path (get_remote_path remote_data +:+ "/" +:+ r +:+ "/" +:+ name))),
       path_str (Path r)).

Lemma filelist_loop_entries (recurse : string → result (list FileEntry)) :
  (∀ s files, is_relative s = true → recurse s = Ok files → Forall P files) →
  ∀ names r acc files,
    Forall Q names → is_relative r = true → Forall P acc →
    filelist_loop cwd recurse remote_data names r acc = Ok files →
    Forall P files.
Proof.
  intros Hrec names.
  induction names as [|path names IH]; intros r acc files HQ Hr Hacc; simpl.
  - by intros [= <-].
  - apply Forall_cons in HQ as [Hpath HQ].
    pose proof (subpath_relative r path Hr) as Hsub.
    destruct (recurse (r +:+ "/" +:+ path)) as [sub|e| |] eqn:Hsubres;
      [| |done..].
    + apply IH; [done..|]. apply Forall_app. split; [done|].
      by apply (Hrec _ _ Hsub).
    + destruct (isinstance_OSError e); [|done].
      apply IH; [done| |].
      * by destruct (normpath_relative r Hr) as (_ & ? & _).
      * apply Forall_app. split; [done|]. constructor; [|done].
        by apply HP.
Qed.

Lemma remote_filelist_entries (fuel : nat) :
  ∀ r files,
    is_relative r = true →
    remote_filelist cwd fuel remote_data r = Ok files → Forall P files.
Proof.
  induction fuel as [|fuel IH]; intros r files Hr; [done|]. simpl.
  destruct (listdir remote_data r) as [names| | |] eqn:Hlist; simpl; [|done..].
  apply filelist_loop_entries; [done| |done..]. by apply (Hnames r).
Qed.

End TraversalEntries.

(** The relative directory of an entry is what [pathlib] writes for a
    list of names. *)
Lemma remote_filelist_relpaths (cwd : string) (remote_data : RemoteData)
    (fuel : nat) (files : list FileEntry) :
  remote_filelist cwd fuel remote_data "." = Ok files →
  Forall (fun e => ∃ dir, entry_relpath e = rel_str dir ∧
                          Forall (fun x => valid_name x = true) dir) files.
Proof.
  apply (remote_filelist_entries cwd remote_data (fun _ => True)); [| |done].
  - intros r names _. by apply Forall_true.
  - intros r name Hr _. exists (components r). cbn [entry_relpath snd].
    split; [|apply components_valid].
    by destruct (normpath_relative r Hr) as (-> & _).
Qed.

(** The name of an entry is the last component of its absolute path. *)
Lemma remote_filelist_names (cwd : string) (remote_data : RemoteData)
    (fuel : nat) (files : list FileEntry) :
  listdir_valid_names remote_data →
  remote_filelist cwd fuel remote_data "." = Ok files →
  Forall (fun e => last (parts (Path (entry_abspath e))) = Some (entry_name e))
         files.
Proof.
  intros Hvalid.
  apply (remote_filelist_entries cwd remote_data
           (fun x => valid_name x = true)); [done| |done].
  intros r name Hr Hname. by apply abspath_last.
Qed.

(** ** The traversal and its reference *)

Section Refinement.
Variable cwd : string.
Variable remote_data : RemoteData.
Hypothesis Hlist : listdir_by_path remote_data.

Lemma filelist_loop_reference
    (rec1 rec2 : string → result (list FileEntry)) :
  (∀ s1 s2, is_relative s1 = true → is_relative s2 = true →
     components s1 = components s2 → rec1 s1 = rec2 s2) →
  ∀ names r1 r2 acc,
    is_relative r1 = true → is_relative r2 = true →
    components r1 = components r2 →
    filelist_loop cwd rec1 remote_data names r1 acc =
    (rest ← reference_loop cwd rec2 remote_data names r2; Ok (acc ++ rest)).
Proof.
  intros Hrec names.
  induction names as [|path names IH]; intros r1 r2 acc H1 H2 Heq.
  - simpl. by rewrite app_nil_r.
  - simpl.
    assert (is_relative (r1 +:+ "/" +:+ path) = true) as Hs1
      by by apply subpath_relative.
    assert (is_relative (r2 +:+ "/" +:+ path) = true) as Hs2
      by by apply subpath_relative.
    assert (components (r1 +:+ "/" +:+ path) =
            components (r2 +:+ "/" +:+ path)) as Hs
      by by rewrite !components_app, Heq.
    rewrite (Hrec _ _ Hs1 Hs2 Hs).
    destruct (rec2 (r2 +:+ "/" +:+ path)) as [files|e| |]; [| |done..].
    + rewrite (IH r1 r2 (acc ++ files) H1 H2 Heq).
      destruct (reference_loop cwd rec2 remote_data names r2); simpl;
        [|done..]. by rewrite app_assoc.
    + destruct (isinstance_OSError e); [|done].
      destruct (normpath_relative r1 H1) as (_ & Hn1 & Hc1).
      rewrite (IH (path_str (Path r1)) r2 _ Hn1 H2 (eq_trans Hc1 Heq)).
      rewrite (abspath_same_components cwd _ _ _ Hs1 Hs2 Hs).
      rewrite (Path_relative r1 H1), (Path_relative r2 H2), Heq.
      destruct (reference_loop cwd rec2 remote_data names r2); simpl;
        [|done..]. by rewrite <- app_assoc.
Qed.

Lemma remote_filelist_reference_gen (fuel : nat) (r1 r2 : string) :
  is_relative r1 = true → is_relative r2 = true →
  components r1 = components r2 →
  remote_filelist cwd fuel remote_data r1 =
  reference_filelist cwd fuel remote_data r2.
Proof.
  revert r1 r2. induction fuel as [|fuel IH]; intros r1 r2 H1 H2 Heq; [done|].
  simpl.
  assert (listdir remote_data r1 = listdir remote_data r2) as ->.
  { apply Hlist. by rewrite (Path_relative r1 H1), (Path_relative r2 H2), Heq. }
  destruct (listdir remote_data r2) as [names|e| |]; [|done..].
  simpl.
  rewrite (filelist_loop_reference _ (reference_filelist cwd fuel remote_data)
             IH names r1 r2 [] H1 H2 Heq).
  by destruct (reference_loop cwd _ remote_data names r2).
Qed.

End Refinement.

Lemma tree_remote_listdir_by_path (remote_path uuid : string) (t : rnode) :
  listdir_by_path (tree_remote remote_path uuid t).
Proof. intros r1 r2 H. simpl. unfold tree_listdir. by rewrite H. Qed.

(** ** Traversal of a tree *)

Lemma rnode_ind_nested (P : rnode → Prop) :
  P RFile →
  (∀ e, P (RBroken e)) →
  (∀ entries, Forall (fun nc => P nc.2) entries → P (RDir entries)) →
  ∀ t, P t.
Proof.
  intros Hf Hb Hd. fix IH 1. intros [|entries|e]; [done| |done].
  apply Hd. induction entries as [|[n c] entries IHes]; constructor.
  - apply IH.
  - apply IHes.
Qed.

Lemma leaf_nodes_dir (dir : list string) (name : string)
    (entries : list (string * rnode)) :
  leaf_nodes dir name (RDir entries) = leaf_nodes_of (dir ++ [name]) entries.
Proof.
  unfold leaf_nodes_of. simpl.
  induction entries as [|[n c] entries IH]; [done|]. simpl. by rewrite IH.
Qed.

Lemma wf_tree_dir (entries : list (string * rnode)) :
  wf_tree (RDir entries) = true →
  Forall (fun x => valid_name x = true) entries.*1 ∧
  NoDup entries.*1 ∧
  Forall (fun nc => wf_tree nc.2 = true) entries.
Proof.
  simpl. intros [[H1 H2]%andb_true_iff H3]%andb_true_iff.
  split_and!.
  - apply Forall_forall. intros x Hx. rewrite forallb_forall in H1.
    apply H1. by apply list_elem_of_In.
  - by apply bool_decide_eq_true in H2.
  - clear H1 H2. induction entries as [|[n c] entries IH]; [done|].
    apply andb_true_iff in H3 as [Hc Hrest]. constructor; [done|by apply IH].
Qed.

Lemma depth_child (entries : list (string * rnode)) (n : string) (c : rnode) :
  (n, c) ∈ entries → (depth c < depth (RDir entries))%nat.
Proof.
  simpl. induction entries as [|[m d] entries IH]; intros Hin.
  - by apply elem_of_nil in Hin.
  - apply elem_of_cons in Hin as [Heq|Hin].
    + injection Heq as -> ->. lia.
    + specialize (IH Hin). lia.
Qed.

Lemma find_child_NoDup (entries : list (string * rnode)) (n : string)
    (c : rnode) :
  NoDup entries.*1 → (n, c) ∈ entries → find_child n entries = Some c.
Proof.
  induction entries as [|[m d] entries IH]; intros Hnd Hin.
  - by apply elem_of_nil in Hin.
  - simpl in *. apply NoDup_cons in Hnd as [Hm Hnd].
    apply elem_of_cons in Hin as [Heq|Hin].
    + injection Heq as -> ->. by rewrite bool_decide_eq_true_2.
    + rewrite bool_decide_eq_false_2; [by apply IH|].
      intros ->. apply Hm. apply list_elem_of_fmap. by exists (n, c).
Qed.

Lemma resolve_app (t node : rnode) (dir q : list string) :
  resolve t dir = inl node → resolve t (dir ++ q) = resolve node q.
Proof.
  revert t. induction dir as [|c dir IH]; intros t H; simpl in *.
  - by injection H as ->.
  - destruct t as [|entries|e]; [done| |done].
    destruct (find_child c entries); [by apply IH|done].
Qed.

Lemma resolve_wf (comps : list string) :
  ∀ t node, wf_tree t = true → resolve t comps = inl node →
            wf_tree node = true.
Proof.
  induction comps as [|c comps IH]; intros t node Hwf; simpl.
  - by intros [= <-].
  - destruct t as [|entries|e]; [done| |done].
    destruct (find_child c entries) as [t'|] eqn:Hfind; [|done].
    apply IH. apply wf_tree_dir in Hwf as (_ & _ & Hwf).
    clear IH. induction entries as [|[n d] entries IHe]; [done|].
    apply Forall_cons in Hwf as [Hd Hwf]. simpl in Hfind.
    destruct (bool_decide (n = c)); [by injection Hfind as <-|by apply IHe].
Qed.

Lemma tree_remote_valid_names (remote_path uuid : string) (t : rnode) :
  wf_tree t = true → listdir_valid_names (tree_remote remote_path uuid t).
Proof.
  intros Hwf r names. simpl. unfold tree_listdir.
  destruct (is_absolute (Path r)); [done|].
  destruct (resolve t (parts (Path r))) as [[|entries|e]|e] eqn:Hres; [done| |done..].
  intros [= <-]. by apply wf_tree_dir, (resolve_wf _ _ _ Hwf Hres).
Qed.

Lemma collect_app (cwd rp : string) (l1 l2 : list (list string * string * exn)) :
  collect cwd rp (l1 ++ l2) =
  (files ← collect cwd rp l1; rest ← collect cwd rp l2; Ok (files ++ rest)).
Proof.
  induction l1 as [|[[dir name] e] l1 IH]; simpl.
  - by destruct (collect cwd rp l2).
  - destruct (isinstance_OSError e); [|done]. rewrite IH.
    destruct (collect cwd rp l1); [|done..]. simpl.
    by destruct (collect cwd rp l2).
Qed.

Lemma collect_Raise (cwd rp : string) (l : list (list string * string * exn))
    (e : exn) :
  collect cwd rp l = Raise e → isinstance_OSError e = false.
Proof.
  induction l as [|[[dir name] e'] l IH]; simpl; [done|].
  destruct (isinstance_OSError e') eqn:He'.
  - destruct (collect cwd rp l); simpl; [done| |done..].
    intros [= <-]. by apply IH.
  - by intros [= <-].
Qed.

Lemma first_uncaught_None (l : list exn) :
  Forall (fun e => isinstance_OSError e = true) l → first_uncaught l = None.
Proof.
  unfold first_uncaught. induction 1 as [|e l He Hl IH]; [done|].
  rewrite filter_cons, decide_False; [done|]. by rewrite He.
Qed.

Lemma collect_first_uncaught (cwd rp : string)
    (l : list (list string * string * exn)) :
  collect cwd rp l =
  match first_uncaught l.*2 with
  | Some e => Raise e
  | None => Ok (map (fun x => leaf_entry cwd rp x.1.1 x.1.2) l)
  end.
Proof.
  unfold first_uncaught.
  induction l as [|[[dir name] e] l IH]; simpl; [done|].
  rewrite filter_cons.
  destruct (isinstance_OSError e) eqn:He.
  - rewrite decide_False by done. rewrite IH.
    by destruct (head _).
  - by rewrite decide_True.
Qed.

Lemma tree_listdir_resolve (t node : rnode) (r : string) :
  is_relative r = true → resolve t (components r) = inl node →
  tree_listdir t r =
  match node with
  | RDir entries => Ok entries.*1
  | RFile => Raise (OSError ENOTDIR)
  | RBroken e => Raise e
  end.
Proof.
  intros Hr Hres. unfold tree_listdir. rewrite (Path_relative r Hr).
  simpl. by rewrite Hres.
Qed.

Section TreeTraversal.
Variables cwd remote_path uuid : string.
Variable t0 : rnode.

Let rd := tree_remote remote_path uuid t0.

(** One run of the loop over the entries of a directory found at
    [dir], the recursive calls behaving as [node_result] says. *)
Lemma filelist_loop_tree (recurse : string → result (list FileEntry))
    (dir : list string) (entries : list (string * rnode)) :
  Forall (fun x => valid_name x = true) entries.*1 →
  (∀ n c r, (n, c) ∈ entries → is_relative r = true →
     components r = dir ++ [n] →
     recurse r = node_result cwd remote_path (dir ++ [n]) c) →
  ∀ r acc, is_relative r = true → components r = dir →
    filelist_loop cwd recurse rd entries.*1 r acc =
    (rest ← collect cwd remote_path (leaf_nodes_of dir entries);
     Ok (acc ++ rest)).
Proof.
  induction entries as [|[n c] entries IH]; intros Hval Hrec r acc Hr Hdir.
  - simpl. by rewrite app_nil_r.
  - apply Forall_cons in Hval as [Hn Hval].
    assert (∀ r acc, is_relative r = true → components r = dir →
      filelist_loop cwd recurse rd entries.*1 r acc =
      (rest ← collect cwd remote_path (leaf_nodes_of dir entries);
       Ok (acc ++ rest))) as IH'.
    { apply IH; [done|]. intros n' c' r' Hin. apply Hrec. by right. }
    clear IH.
    assert (is_relative (r +:+ "/" +:+ n) = true) as Hsub
      by by apply subpath_relative.
    assert (components (r +:+ "/" +:+ n) = dir ++ [n]) as Hcomp
      by by rewrite components_app, Hdir, valid_name_components.
    change (((n, c) :: entries).*1) with (n :: entries.*1).
    cbn [filelist_loop].
    rewrite (Hrec n c _ (list_elem_of_here _ _) Hsub Hcomp).
    change (leaf_nodes_of dir ((n, c) :: entries))
      with (leaf_nodes dir n c ++ leaf_nodes_of dir entries).
    rewrite collect_app.
    destruct (normpath_relative r Hr) as (Hnorm & Hrel' & Hcomp').
    assert (path_str (absolute cwd
              (Path (get_remote_path rd +:+ "/" +:+ r +:+ "/" +:+ n))) =
            (leaf_entry cwd remote_path dir n).1.2) as Habs.
    { simpl. by rewrite (Path_under remote_path _ Hsub), Hcomp. }
    assert (path_str (Path r) = rel_str dir) as Hrelstr
      by by rewrite Hnorm, Hdir.
    destruct c as [|sub|e]; simpl node_result.
    + simpl leaf_nodes. cbn [collect isinstance_OSError].
      rewrite Habs, Hrelstr.
      rewrite IH'; [|by rewrite <- Hrelstr|by rewrite <- Hrelstr, Hcomp'].
      destruct (collect cwd remote_path (leaf_nodes_of dir entries));
        simpl; [|done..]. by rewrite <- app_assoc.
    + rewrite leaf_nodes_dir.
      destruct (collect cwd remote_path (leaf_nodes_of (dir ++ [n]) sub))
        as [files|e| |] eqn:Hc.
      * rewrite IH' by done. simpl.
        destruct (collect cwd remote_path (leaf_nodes_of dir entries));
          simpl; [|done..]. by rewrite app_assoc.
      * by rewrite (collect_Raise _ _ _ _ Hc).
      * done.
      * done.
    + simpl leaf_nodes. cbn [collect].
      destruct (isinstance_OSError e); [|done].
      rewrite Habs, Hrelstr.
      rewrite IH'; [|by rewrite <- Hrelstr|by rewrite <- Hrelstr, Hcomp'].
      destruct (collect cwd remote_path (leaf_nodes_of dir entries));
        simpl; [|done..]. by rewrite <- app_assoc.
Qed.

(** The traversal started at a path that leads to [node]. *)
Lemma remote_filelist_node (node : rnode) :
  wf_tree node = true →
  ∀ fuel dir r,
    resolve t0 dir = inl node → is_relative r = true →
    components r = dir → (depth node < fuel)%nat →
    remote_filelist cwd fuel rd r = node_result cwd remote_path dir node.
Proof.
  induction node as [|e|entries IH] using rnode_ind_nested;
    intros Hwf fuel dir r Hres Hr Hdir Hfuel;
    (destruct fuel as [|fuel]; [lia|]); simpl;
    rewrite <- Hdir in Hres;
    rewrite (tree_listdir_resolve t0 _ r Hr Hres); [done..|].
  apply wf_tree_dir in Hwf as (Hval & Hnd & Hwf).
  unfold mbind, result_bind.
  rewrite (filelist_loop_tree _ dir entries Hval); [| |done..].
  - by destruct (collect _ _ _).
  - intros n c r' Hin Hr' Hcomp'.
    rewrite Forall_forall in IH. rewrite Forall_forall in Hwf.
    apply (IH (n, c) Hin); [by apply (Hwf (n, c))| |done|done|].
    + rewrite Hdir in Hres. rewrite (resolve_app _ _ _ _ Hres). simpl.
      by rewrite (find_child_NoDup _ _ _ Hnd Hin).
    + pose proof (depth_child _ _ _ Hin). change (depth c < fuel)%nat. lia.
Qed.

End TreeTraversal.

(** The traversal of a tree all of whose listing failures are
    [OSError]s returns, given the fuel. *)
Lemma remote_filelist_tree_Ok (cwd remote_path uuid : string)
    (entries : list (string * rnode)) (fuel : nat) :
  wf_tree (RDir entries) = true → (depth (RDir entries) < fuel)%nat →
  Forall (fun x => isinstance_OSError x.2 = true) (leaf_nodes_of [] entries) →
  remote_filelist cwd fuel (tree_remote remote_path uuid (RDir entries)) "." =
    Ok (map (fun x => leaf_entry cwd remote_path x.1.1 x.1.2)
          (leaf_nodes_of [] entries)).
Proof.
  intros Hwf Hfuel Hall.
  rewrite (remote_filelist_node cwd remote_path uuid _ _ Hwf fuel [] ".")
    by done.
  simpl. rewrite collect_first_uncaught, first_uncaught_None; [done|].
  by apply Forall_fmap.
Qed.

(** ** Listing failures during the traversal *)

(** What [except OSError] makes of the listing failures.  A remote
    folder being a well-formed tree and the fuel covering its depth:
    when the listing of every node that is not a directory raises an
    [OSError] (for a file, the "not a directory" error), the traversal
    returns an entry for each of these nodes, wherever it lies and
    whatever lies beside it; when the listing of one of them raises
    another exception, the traversal raises the first such exception and
    returns no list; and a failure to list the folder itself is raised
    as it is. *)
Theorem remote_filelist_listing_failures (cwd remote_path uuid : string)
    (t : rnode) (fuel : nat) :
  wf_tree t = true → (depth t < fuel)%nat →
  let result := remote_filelist cwd fuel (tree_remote remote_path uuid t) "." in
  match t with
  | RDir entries =>
      let leaves := leaf_nodes_of [] entries in
      (Forall (fun x => isinstance_OSError x.2 = true) leaves →
         result =
           Ok (map (fun x => leaf_entry cwd remote_path x.1.1 x.1.2) leaves)) ∧
      (∀ e, first_uncaught leaves.*2 = Some e → result = Raise e)
  | RFile => result = Raise (OSError ENOTDIR)
  | RBroken e => result = Raise e
  end.
Proof.
  intros Hwf Hfuel result. destruct t as [|entries|e].
  - unfold result.
    by rewrite (remote_filelist_node cwd remote_path uuid _ _ Hwf fuel [] ".").
  - split; [by apply remote_filelist_tree_Ok|].
    intros e He. unfold result.
    rewrite (remote_filelist_node cwd remote_path uuid _ _ Hwf fuel [] ".")
      by done.
    simpl. by rewrite collect_first_uncaught, He.
  - unfold result.
    by rewrite (remote_filelist_node cwd remote_path uuid _ _ Hwf fuel [] ".").
Qed.

Lemma remote_filelist_listing_failures_witness :
  remote_filelist Example.cwd 2 Example.flaky_remote "." =
    Ok (map (fun x => leaf_entry Example.cwd "/scratch/run1" x.1.1 x.1.2)
          (leaf_nodes_of [] [("OUTCAR", RFile);
                             ("data", RBroken (OSError ECONNRESET));
                             ("CONTCAR", RFile)])).
Proof.
  apply (remote_filelist_listing_failures Example.cwd "/scratch/run1"
           "computer-uuid" Example.flaky_tree 2).
  - vm_compute. reflexivity.
  - vm_compute. lia.
  - repeat constructor.
Defined.

(** C1.  The code at an input on which it breaks the claim: the
    listing of the directory [data] fails with a reset connection, a
    failure of the transport, and the traversal does not abort; it goes
    on and returns a list in which [data] stands as a file, what the
    directory holds being left out.  The [except OSError] clause is meant
    for a [subpath] that is a file, as its comment says, and the method
    is documented to return the files found on the remote: the clause
    catches more than it is meant to. *)
Lemma transport_failure_recorded_as_file :
  listdir Example.flaky_remote "./data" = Raise (OSError ECONNRESET) ∧
  remote_filelist Example.cwd 2 Example.flaky_remote "." =
    Ok [("OUTCAR", "/scratch/run1/OUTCAR", ".");
        ("data", "/scratch/run1/data", ".");
        ("CONTCAR", "/scratch/run1/CONTCAR", ".")].
Proof. split; vm_compute; reflexivity. Qed.

(** An exception outside of [OSError] does abort the traversal. *)
Example other_failure_aborts :
  remote_filelist Example.cwd 2
    (tree_remote "/scratch/run1" "computer-uuid"
       (RDir [("OUTCAR", RFile);
              ("data", RBroken (OtherError "SSHException"));
              ("CONTCAR", RFile)])) "."
  = Raise (OtherError "SSHException").
Proof. vm_compute. reflexivity. Qed.

(** ** The traversal refines its reference *)

(** C10.  For a remote folder whose listings do not depend on how a
    path is spelled, the traversal of the code, which reassigns
    [relpath] within its loop, returns what the reference traversal
    returns, which carries nothing from one entry to the next: the same
    entries in the same order.  The relative directory of every entry is
    normalised: [str(Path(..))] leaves it as it is, and it is what
    [pathlib] writes for a list of names, ["."] for the empty list, so
    that it never starts with [./].  And when the folder is a tree, each
    entry is [leaf_entry] of the directory and the name of a node: it
    depends on where the node lies and on nothing else. *)
Theorem remote_filelist_refines_reference (cwd : string) (fuel : nat)
    (remote_data : RemoteData) :
  listdir_by_path remote_data →
  remote_filelist cwd fuel remote_data "." =
    reference_filelist cwd fuel remote_data "." ∧
  (∀ files,
     remote_filelist cwd fuel remote_data "." = Ok files →
     Forall (fun e =>
               normpath (entry_relpath e) = entry_relpath e ∧
               ∃ dir, entry_relpath e = rel_str dir ∧
                      Forall (fun x => valid_name x = true) dir)
            files) ∧
  (∀ remote_path uuid entries,
     remote_data = tree_remote remote_path uuid (RDir entries) →
     wf_tree (RDir entries) = true → (depth (RDir entries) < fuel)%nat →
     Forall (fun x => isinstance_OSError x.2 = true)
            (leaf_nodes_of [] entries) →
     remote_filelist cwd fuel remote_data "." =
       Ok (map (fun x => leaf_entry cwd remote_path x.1.1 x.1.2)
             (leaf_nodes_of [] entries))).
Proof.
  intros Hlist. split_and!.
  - by apply remote_filelist_reference_gen.
  - intros files Hfiles.
    eapply Forall_impl; [by eapply remote_filelist_relpaths|].
    intros e (dir & Hrel & Hdir). split; [|by exists dir].
    rewrite Hrel. unfold normpath, rel_str. rewrite Path_path_str; [done|].
    split; [by left|done].
  - intros remote_path uuid entries ->. apply remote_filelist_tree_Ok.
Qed.

Lemma remote_filelist_refines_reference_witness :
  remote_filelist Example.cwd 3 Example.remote "." =
    reference_filelist Example.cwd 3 Example.remote "." ∧
  Forall (fun e =>
            normpath (entry_relpath e) = entry_relpath e ∧
            ∃ dir, entry_relpath e = rel_str dir ∧
                   Forall (fun x => valid_name x = true) dir)
         [("CONTCAR", "/scratch/run1/a/CONTCAR", "a");
          ("OUTCAR", "/scratch/run1/a/OUTCAR", "a");
          ("job_tmpl.json", "/scratch/run1/b/job_tmpl.json", "b")] ∧
  remote_filelist Example.cwd 3 Example.remote "." =
    Ok (map (fun x => leaf_entry Example.cwd "/scratch/run1" x.1.1 x.1.2)
          (leaf_nodes_of []
             [("a", RDir [("CONTCAR", RFile); ("OUTCAR", RFile)]);
              ("b", RDir [("job_tmpl.json", RFile)])])).
Proof.
  destruct (remote_filelist_refines_reference Example.cwd 3 Example.remote
              (tree_remote_listdir_by_path _ _ _))
    as (Href & Hnorm & Htree).
  split_and!.
  - exact Href.
  - apply Hnorm. vm_compute. reflexivity.
  - apply (Htree "/scratch/run1" "computer-uuid").
    + reflexivity.
    + vm_compute. reflexivity.
    + vm_compute. lia.
    + repeat constructor.
Defined.

(** ** The local file system *)

Lemma lfind_lreplace (name d : string) (t : lnode)
    (entries : list (string * lnode)) :
  is_Some (lfind name entries) →
  lfind d (lreplace name t entries) =
  if bool_decide (d = name) then Some t else lfind d entries.
Proof.
  induction entries as [|[n t'] entries IH]; simpl; intros Hfind.
  - by destruct Hfind.
  - destruct (decide (n = name)) as [->|Hne].
    + rewrite bool_decide_eq_true_2 by done. simpl.
      destruct (decide (name = d)) as [->|Hd].
      * by rewrite !bool_decide_eq_true_2.
      * rewrite !(bool_decide_eq_false_2 (name = d)) by done.
        rewrite (bool_decide_eq_false_2 (d = name)) by done. done.
    + rewrite (bool_decide_eq_false_2 (n = name)) in * by done. simpl.
      rewrite (IH Hfind).
      destruct (decide (n = d)) as [->|Hd].
      * rewrite (bool_decide_eq_true_2 (d = d)) by done.
        by rewrite (bool_decide_eq_false_2 (d = name)).
      * by rewrite (bool_decide_eq_false_2 (n = d)).
Qed.

Lemma lfind_snoc (d c : string) (t : lnode) (entries : list (string * lnode)) :
  lfind c entries = None →
  lfind d (entries ++ [(c, t)]) =
  if bool_decide (d = c) then Some t else lfind d entries.
Proof.
  induction entries as [|[n t'] entries IH]; simpl; intros Hfind.
  - destruct (decide (c = d)) as [->|Hd].
    + by rewrite !bool_decide_eq_true_2.
    + rewrite (bool_decide_eq_false_2 (c = d)) by done.
      by rewrite (bool_decide_eq_false_2 (d = c)).
  - destruct (decide (n = c)) as [->|Hne].
    + by rewrite bool_decide_eq_true_2 in Hfind.
    + rewrite (bool_decide_eq_false_2 (n = c)) in Hfind by done.
      rewrite (IH Hfind).
      destruct (decide (n = d)) as [->|Hd].
      * rewrite (bool_decide_eq_true_2 (d = d)) by done.
        by rewrite (bool_decide_eq_false_2 (d = c)).
      * by rewrite (bool_decide_eq_false_2 (n = d)).
Qed.

Lemma path_exists_split (fs : lnode) (k : list string) :
  path_exists fs k = is_dir fs k || is_file fs k.
Proof.
  unfold path_exists, is_dir, is_file.
  by destruct (os_stat fs k) as [[|?]| | |].
Qed.

Lemma is_dir_nil (fs : lnode) : is_dir fs [] = negb (is_file fs []).
Proof. by destruct fs. Qed.

(** What a successful [os.mkdir] changes: the path is a directory
    afterwards, and nothing else differs as far as files and
    directories go. *)
Lemma os_mkdir_Ok (k : list string) :
  ∀ fs fs', os_mkdir fs k = Ok fs' →
    path_exists fs k = false ∧
    ∀ q, is_dir fs' q = is_dir fs q || bool_decide (q = k) ∧
         is_file fs' q = is_file fs q.
Proof.
  induction k as [|c k IH]; intros fs fs'; simpl; [done|].
  destruct fs as [|entries]; [done|].
  destruct (lfind c entries) as [t|] eqn:Hfind.
  - destruct (os_mkdir t k) as [t'| | |] eqn:Hmk; simpl; [|done..].
    intros [= <-]. destruct (IH _ _ Hmk) as [Hex Hq].
    split.
    { unfold path_exists. simpl. by rewrite Hfind. }
    intros [|d q].
    { by rewrite orb_false_r. }
    unfold is_dir, is_file. simpl.
    rewrite lfind_lreplace by by rewrite Hfind.
    destruct (decide (d = c)) as [->|Hd].
    + rewrite bool_decide_eq_true_2 by done. rewrite Hfind.
      destruct (Hq q) as [Hd Hf]. unfold is_dir, is_file in Hd, Hf.
      rewrite Hd, Hf. split; [|done]. f_equal.
      apply bool_decide_ext. split; [by intros ->|by intros [= ->]].
    + rewrite bool_decide_eq_false_2 by done.
      rewrite (bool_decide_eq_false_2 (d :: q = c :: k)) by congruence.
      by rewrite orb_false_r.
  - destruct k as [|c' k]; [|done]. intros [= <-].
    split.
    { unfold path_exists. simpl. by rewrite Hfind. }
    intros [|d q].
    { by rewrite orb_false_r. }
    unfold is_dir, is_file. simpl.
    rewrite lfind_snoc by done.
    destruct (decide (d = c)) as [->|Hd].
    + rewrite bool_decide_eq_true_2 by done. rewrite Hfind.
      destruct q as [|d' q]; simpl.
      * by rewrite bool_decide_eq_true_2.
      * by rewrite (bool_decide_eq_false_2 (c :: d' :: q = [c])) by congruence.
    + rewrite bool_decide_eq_false_2 by done.
      rewrite (bool_decide_eq_false_2 (d :: q = [c])) by congruence.
      by rewrite orb_false_r.
Qed.

Lemma os_mkdir_exists (k : list string) :
  ∀ fs, path_exists fs k = true → os_mkdir fs k = Raise (OSError EEXIST).
Proof.
  induction k as [|c k IH]; intros fs; [done|]. unfold path_exists. simpl.
  destruct fs as [|entries]; [done|].
  destruct (lfind c entries) as [t|]; [|done].
  intros H. by rewrite (IH t H).
Qed.

Lemma os_mkdir_creates (k : list string) :
  ∀ fs, path_exists fs k = false → is_dir fs (removelast k) = true →
    ∃ fs', os_mkdir fs k = Ok fs'.
Proof.
  induction k as [|c k IH]; intros fs Hex Hparent.
  - rewrite path_exists_split in Hex. simpl in Hparent.
    by rewrite Hparent in Hex.
  - destruct fs as [|entries].
    { unfold is_dir in Hparent. by destruct k. }
    simpl. unfold path_exists in Hex. simpl in Hex.
    destruct (lfind c entries) as [t|] eqn:Hfind.
    + destruct k as [|c' k]; [done|].
      destruct (IH t) as [t' ->]; [done| |by eexists].
      unfold is_dir in *. change (removelast (c :: c' :: k))
        with (c :: removelast (c' :: k)) in Hparent.
      simpl in Hparent. by rewrite Hfind in Hparent.
    + destruct k as [|c' k]; [by eexists|].
      unfold is_dir in Hparent. change (removelast (c :: c' :: k))
        with (c :: removelast (c' :: k)) in Hparent.
      simpl in Hparent. by rewrite Hfind in Hparent.
Qed.

Lemma no_file_on_child (c : string) (k : list string)
    (entries : list (string * lnode)) (t : lnode) :
  lfind c entries = Some t → no_file_on (LDir entries) (c :: k) →
  no_file_on t k.
Proof.
  intros Hfind Hno q Hq. specialize (Hno (c :: q) (prefix_cons _ _ _ Hq)).
  unfold is_file in *. simpl in Hno. by rewrite Hfind in Hno.
Qed.

Lemma os_mkdir_noent (k : list string) :
  ∀ fs, no_file_on fs k → path_exists fs k = false →
    is_dir fs (removelast k) = false →
    os_mkdir fs k = Raise (OSError ENOENT).
Proof.
  induction k as [|c k IH]; intros fs Hno Hex Hparent.
  - rewrite path_exists_split in Hex. simpl in Hparent.
    apply orb_false_iff in Hex as [Hd _]. rewrite is_dir_nil in Hd.
    by rewrite (Hno [] (prefix_nil _)) in Hd.
  - destruct fs as [|entries].
    { by specialize (Hno [] (prefix_nil _)). }
    simpl. unfold path_exists in Hex. simpl in Hex.
    destruct (lfind c entries) as [t|] eqn:Hfind.
    + destruct k as [|c' k]; [done|].
      rewrite (IH t); [done| |done|].
      * by eapply no_file_on_child.
      * unfold is_dir in *. change (removelast (c :: c' :: k))
          with (c :: removelast (c' :: k)) in Hparent.
        simpl in Hparent. by rewrite Hfind in Hparent.
    + by destruct k.
Qed.

Lemma path_exists_prefix (q : list string) :
  ∀ fs k, path_exists fs k = true → q `prefix_of` k →
    path_exists fs q = true.
Proof.
  induction q as [|c q IH]; intros fs k Hex Hq; [done|].
  destruct k as [|c' k]; [by apply prefix_nil_not in Hq|].
  pose proof (prefix_cons_inv_1 _ _ _ _ Hq) as ->.
  apply prefix_cons_inv_2 in Hq.
  unfold path_exists in *. simpl in *.
  destruct fs as [|entries]; [done|].
  destruct (lfind c' entries) as [t|]; [|done]. by eapply IH.
Qed.

(** A directory that exists has directories above it, but for the
    regular files the hypothesis excludes. *)
Lemma exists_prefix_is_dir (fs : lnode) (k q : list string) :
  no_file_on fs k → path_exists fs k = true → q `prefix_of` k →
  is_dir fs q = true.
Proof.
  intros Hno Hex Hq.
  pose proof (path_exists_prefix q fs k Hex Hq) as Hq'.
  rewrite path_exists_split, (Hno q Hq) in Hq'. by rewrite orb_false_r in Hq'.
Qed.

Lemma prefix_snoc_inv (q k : list string) (c : string) :
  q `prefix_of` k ++ [c] ↔ q `prefix_of` k ∨ q = k ++ [c].
Proof.
  split.
  - intros [r Hr]. destruct r as [|x r _] using rev_ind.
    + right. by rewrite app_nil_r in Hr.
    + left. rewrite app_assoc in Hr. apply app_inj_tail in Hr as [-> _].
      by exists r.
  - intros [Hq| ->]; [by apply prefix_app_r|done].
Qed.

Lemma removelast_snoc (k : list string) (c : string) :
  removelast (k ++ [c]) = k.
Proof. by rewrite removelast_app, app_nil_r. Qed.

Lemma grown_refl (fs : lnode) (k : list string) :
  no_file_on fs k → path_exists fs k = true → grown fs fs k.
Proof.
  intros Hno Hex. split; [|done]. intros q. split; [by left|].
  intros [H|H]; [done|]. by eapply exists_prefix_is_dir.
Qed.

(** [mkdir(parents=True)] where no regular file is in the way: the
    directory and those above it are made, unless the directory exists
    and [exist_ok] is not set. *)
Lemma mkdir_parents_grown (n : nat) :
  ∀ fs k exist_ok,
    (length k ≤ n)%nat → no_file_on fs k →
    exist_ok = true ∨ path_exists fs k = false →
    ∃ fs', mkdir_parents n fs k exist_ok = Ok fs' ∧ grown fs fs' k.
Proof.
  induction n as [|n IH]; intros fs k exist_ok Hlen Hno Hok;
    destruct (path_exists fs k) eqn:Hex.
  - destruct Hok as [->|]; [|done]. exists fs.
    simpl. rewrite (os_mkdir_exists k fs Hex). simpl.
    rewrite (exists_prefix_is_dir fs k k Hno Hex) by done.
    split; [done|by apply grown_refl].
  - destruct k; [|simpl in Hlen; lia]. by rewrite path_exists_split, is_dir_nil,
      (Hno [] (prefix_nil _)) in Hex.
  - destruct Hok as [->|]; [|done]. exists fs. simpl.
    rewrite (os_mkdir_exists k fs Hex). simpl.
    rewrite (exists_prefix_is_dir fs k k Hno Hex) by done.
    split; [done|by apply grown_refl].
  - clear Hok. destruct k as [|c k _] using rev_ind.
    { by rewrite path_exists_split, is_dir_nil, (Hno [] (prefix_nil _)) in Hex. }
    rewrite length_app in Hlen. simpl in Hlen.
    assert (∀ fs1, grown fs fs1 k → is_dir fs1 k = true →
              ∃ fs', os_mkdir fs1 (k ++ [c]) = Ok fs' ∧
                     grown fs fs' (k ++ [c])) as Hmake.
    { intros fs1 [Hd1 Hf1] Hk1.
      assert (path_exists fs1 (k ++ [c]) = false) as Hex1.
      { rewrite path_exists_split, Hf1.
        rewrite path_exists_split in Hex.
        apply orb_false_iff in Hex as [Hd Hf]. rewrite Hf, orb_false_r.
        destruct (is_dir fs1 (k ++ [c])) eqn:Hd'; [|done].
        apply Hd1 in Hd' as [Hd'|Hd']; [congruence|].
        by apply prefix_snoc_not in Hd'. }
      destruct (os_mkdir_creates (k ++ [c]) fs1 Hex1) as [fs' Hfs'].
      { by rewrite removelast_snoc. }
      exists fs'. split; [done|].
      destruct (os_mkdir_Ok _ _ _ Hfs') as [_ Hq].
      split; intros q; destruct (Hq q) as [Hqd Hqf].
      - rewrite Hqd, orb_true_iff, bool_decide_eq_true, Hd1, prefix_snoc_inv.
        tauto.
      - by rewrite Hqf, Hf1. }
    destruct (is_dir fs k) eqn:Hparent.
    + destruct (Hmake fs) as (fs' & Hfs' & Hgrown); [|done|].
      { split; [|done]. intros q. split; [by left|]. intros [H|H]; [done|].
        eapply exists_prefix_is_dir; [| |done].
        - intros q' Hq'. apply Hno. by apply prefix_app_r.
        - by rewrite path_exists_split, Hparent. }
      exists fs'. split; [|done]. simpl. by rewrite Hfs'.
    + simpl. rewrite (os_mkdir_noent (k ++ [c]) fs Hno Hex)
        by by rewrite removelast_snoc.
      simpl. rewrite bool_decide_eq_false_2 by by destruct k.
      rewrite removelast_snoc.
      destruct (IH fs k true) as (fs1 & -> & Hgrown1); [lia| |by left|].
      { intros q' Hq'. apply Hno. by apply prefix_app_r. }
      simpl. destruct (Hmake fs1 Hgrown1) as (fs' & Hfs' & Hgrown).
      { apply Hgrown1. by right. }
      exists fs'. split; [|done]. unfold mkdir_once. by rewrite Hfs'.
Qed.


(** ** Copying a remote folder for a restart *)

Section RestartCopy.
Variable cwd : string.
Variable defaults : Defaults.
Variable remote_comp_uuid : string.
Variable exclude_files : list (option string).
Variable overwrite_poscar : bool.
Variable folder_abspath : string.

Let step := restart_copy_step cwd defaults remote_comp_uuid exclude_files
              overwrite_poscar folder_abspath.
Let loop := restart_copy_loop cwd defaults remote_comp_uuid exclude_files
              overwrite_poscar folder_abspath.
Let kept (e : FileEntry) : Prop := py_in (entry_name e) exclude_files = false.

Lemma restart_copy_step_calcinfo fs calcinfo e fs' calcinfo' :
  step (fs, calcinfo) e = Ok (fs', calcinfo') →
  calcinfo' =
  if py_in (entry_name e) exclude_files then calcinfo
  else set_remote_copy_list calcinfo
         (remote_copy_list calcinfo ++
          [copy_entry_of defaults remote_comp_uuid overwrite_poscar e]).
Proof.
  unfold step, restart_copy_step. destruct e as [[name abspath] relpath].
  cbn [entry_name fst snd].
  destruct (py_in name exclude_files); [by intros [= _ <-]|].
  destruct (negb _); [|by intros [= _ <-]].
  destruct (Path_mkdir_parents _ _); simpl; [|done..]. by intros [= _ <-].
Qed.

(** The copy list after the loop: one instruction for each file whose
    name is not excluded, in the order of the traversal. *)
Lemma restart_copy_loop_calcinfo files :
  ∀ fs calcinfo fs' calcinfo',
    loop files (fs, calcinfo) = Ok (fs', calcinfo') →
    remote_copy_list calcinfo' =
      remote_copy_list calcinfo ++
      map (copy_entry_of defaults remote_comp_uuid overwrite_poscar)
          (filter kept files) ∧
    codes_info calcinfo' = codes_info calcinfo.
Proof.
  induction files as [|e files IH]; intros fs calcinfo fs' calcinfo'.
  - simpl. intros [= _ <-]. by rewrite app_nil_r.
  - unfold loop. cbn [restart_copy_loop]. fold step. fold loop.
    destruct (step (fs, calcinfo) e) as [[fs1 calcinfo1]| | |] eqn:Hstep;
      simpl; [|done..].
    intros Hloop. apply IH in Hloop as [Hlist Hcodes].
    apply restart_copy_step_calcinfo in Hstep.
    rewrite filter_cons.
    destruct (decide (kept e)) as [Hkept|Hkept]; unfold kept in Hkept.
    + rewrite Hkept in Hstep. subst calcinfo1. simpl in *.
      by rewrite Hlist, <- app_assoc.
    + apply not_false_is_true in Hkept. rewrite Hkept in Hstep.
      by subst calcinfo1.
Qed.

Lemma restart_copy_step_exists fs calcinfo e :
  path_exists fs (local_parent cwd folder_abspath e) = true →
  ∃ calcinfo', step (fs, calcinfo) e = Ok (fs, calcinfo').
Proof.
  unfold step, restart_copy_step, local_parent.
  destruct e as [[name abspath] relpath]. cbn [entry_relpath snd].
  intros ->. destruct (py_in name exclude_files); by eexists.
Qed.

Lemma restart_copy_step_grown fs calcinfo e :
  kept e → no_file_on fs (local_parent cwd folder_abspath e) →
  ∃ fs' calcinfo',
    step (fs, calcinfo) e = Ok (fs', calcinfo') ∧
    grown fs fs' (local_parent cwd folder_abspath e).
Proof.
  unfold kept, step, restart_copy_step, local_parent.
  destruct e as [[name abspath] relpath]. cbn [entry_name entry_relpath fst snd].
  intros -> Hno.
  destruct (path_exists fs _) eqn:Hex; simpl.
  - eexists _, _. split; [done|]. by apply grown_refl.
  - destruct (mkdir_parents_grown _ fs _ false (le_n _) Hno)
      as (fs' & Hfs' & Hgrown); [by right|].
    unfold Path_mkdir_parents. rewrite Hfs'. by eexists _, _.
Qed.

Lemma restart_copy_step_excluded fs calcinfo e :
  ¬ kept e → step (fs, calcinfo) e = Ok (fs, calcinfo).
Proof.
  unfold kept, step, restart_copy_step.
  destruct e as [[name abspath] relpath]. cbn [entry_name fst snd].
  by destruct (py_in name exclude_files).
Qed.

(** The local file system after the loop, where no regular file is in
    the way: the directories of the files copied were made, with
    those above them, and nothing else changed. *)
Lemma restart_copy_loop_grown files :
  ∀ fs calcinfo,
    (∀ e, e ∈ files → kept e →
       no_file_on fs (local_parent cwd folder_abspath e)) →
    ∃ fs' calcinfo',
      loop files (fs, calcinfo) = Ok (fs', calcinfo') ∧
      (∀ q, is_dir fs' q = true ↔
            is_dir fs q = true ∨
            ∃ e, e ∈ files ∧ kept e ∧
                 q `prefix_of` local_parent cwd folder_abspath e) ∧
      (∀ q, is_file fs' q = is_file fs q).
Proof.
  induction files as [|e files IH]; intros fs calcinfo Hno.
  - exists fs, calcinfo. split; [done|]. split; [|done].
    intros q. split; [by left|]. intros [H|(e & He & _)]; [done|].
    by apply elem_of_nil in He.
  - unfold loop. cbn [restart_copy_loop]. fold step. fold loop.
    destruct (decide (kept e)) as [Hkept|Hkept].
    + destruct (restart_copy_step_grown fs calcinfo e Hkept)
        as (fs1 & calcinfo1 & -> & Hd1 & Hf1).
      { apply Hno; [by left|done]. }
      simpl.
      destruct (IH fs1 calcinfo1) as (fs' & calcinfo' & -> & Hd & Hf).
      { intros e' He' Hk' q Hq. rewrite Hf1. apply (Hno e'); [by right|done..]. }
      exists fs', calcinfo'. split; [done|]. split.
      * intros q. rewrite Hd, Hd1. split.
        -- intros [[H|H]|(e' & He' & Hk' & Hq)]; [by left| |].
           ++ right. exists e. split; [by left|done].
           ++ right. exists e'. split; [by right|done].
        -- intros [H|(e' & He' & Hk' & Hq)]; [by left; left|].
           apply elem_of_cons in He' as [->|He'].
           ++ left. by right.
           ++ right. by exists e'.
      * intros q. by rewrite Hf, Hf1.
    + rewrite (restart_copy_step_excluded fs calcinfo e Hkept). simpl.
      destruct (IH fs calcinfo) as (fs' & calcinfo' & -> & Hd & Hf).
      { intros e' He' Hk'. apply Hno; [by right|done]. }
      exists fs', calcinfo'. split; [done|]. split; [|done].
      intros q. rewrite Hd. split.
      * intros [H|(e' & He' & Hk' & Hq)]; [by left|].
        right. exists e'. split; [by right|done].
      * intros [H|(e' & He' & Hk' & Hq)]; [by left|].
        apply elem_of_cons in He' as [->|He']; [done|].
        right. by exists e'.
Qed.

(** The loop run where the directories exist already: no error, and
    the file system is left as it is. *)
Lemma restart_copy_loop_idempotent files :
  ∀ fs calcinfo,
    (∀ e, e ∈ files → kept e →
       path_exists fs (local_parent cwd folder_abspath e) = true) →
    ∃ calcinfo', loop files (fs, calcinfo) = Ok (fs, calcinfo').
Proof.
  induction files as [|e files IH]; intros fs calcinfo Hex.
  - by exists calcinfo.
  - unfold loop. cbn [restart_copy_loop]. fold step. fold loop.
    destruct (decide (kept e)) as [Hkept|Hkept].
    + destruct (restart_copy_step_exists fs calcinfo e) as [calcinfo1 ->].
      { apply Hex; [by left|done]. }
      simpl. apply IH. intros e' He'. apply Hex. by right.
    + rewrite (restart_copy_step_excluded fs calcinfo e Hkept). simpl.
      apply IH. intros e' He'. apply Hex. by right.
Qed.

End RestartCopy.

Lemma restart_copy_remote_inv (cwd : string) (defaults : Defaults) (fuel : nat)
    (self : CalculationBase) (folder_abspath : string) (fs fs' : lnode)
    (calcinfo calcinfo' : CalcInfo) :
  restart_copy_remote cwd defaults fuel self folder_abspath fs calcinfo
    = Ok (fs', calcinfo') →
  ∃ remote_data files,
    restart_folder (inputs self) = Some remote_data ∧
    remote_filelist cwd fuel remote_data "." = Ok files ∧
    restart_copy_loop cwd defaults (computer_uuid remote_data)
      (restart_files_exclude defaults self)
      (restart_contcar_to_poscar (inputs self)) folder_abspath files
      (fs, calcinfo) = Ok (fs', calcinfo').
Proof.
  unfold restart_copy_remote.
  destruct (restart_folder (inputs self)) as [remote_data|]; [|done].
  destruct (remote_filelist cwd fuel remote_data ".") as [files| | |] eqn:Hfiles;
    simpl; [|done..].
  intros Hloop. by exists remote_data, files.
Qed.

Lemma restart_copy_remote_keeps_codes_info (cwd : string)
    (defaults : Defaults) (fuel : nat) :
  keeps_codes_info (restart_copy_remote cwd defaults fuel).
Proof.
  intros self folder_abspath fs calcinfo fs' calcinfo' H.
  apply restart_copy_remote_inv in H as (remote_data & files & _ & _ & Hloop).
  by apply restart_copy_loop_calcinfo in Hloop as [_ ?].
Qed.

(** [restart_copy_remote] returns: for a remote folder that is a tree
    all of whose listing failures are [OSError]s, given the fuel, and
    where no regular file of the local file system lies on the way. *)
Lemma restart_copy_remote_returns (cwd : string) (defaults : Defaults)
    (fuel : nat) (self : CalculationBase) (remote_path uuid : string)
    (entries : list (string * rnode)) (folder_abspath : string) (fs : lnode)
    (calcinfo : CalcInfo) :
  restart_folder (inputs self)
    = Some (tree_remote remote_path uuid (RDir entries)) →
  wf_tree (RDir entries) = true → (depth (RDir entries) < fuel)%nat →
  Forall (fun x => isinstance_OSError x.2 = true) (leaf_nodes_of [] entries) →
  (∀ x, x ∈ leaf_nodes_of [] entries →
     py_in x.1.2 (restart_files_exclude defaults self) = false →
     no_file_on fs
       (local_parent cwd folder_abspath (leaf_entry cwd remote_path x.1.1 x.1.2))) →
  ∃ fs' calcinfo',
    restart_copy_remote cwd defaults fuel self folder_abspath fs calcinfo
      = Ok (fs', calcinfo').
Proof.
  intros Hfolder Hwf Hfuel Hall Hno. unfold restart_copy_remote.
  rewrite Hfolder, (remote_filelist_tree_Ok _ _ _ _ _ Hwf Hfuel Hall). simpl.
  edestruct restart_copy_loop_grown as (fs' & calcinfo' & Hloop & _);
    [|by exists fs', calcinfo'].
  intros e He Hkept. apply list_elem_of_fmap in He as (x & -> & Hx).
  by apply Hno.
Qed.

(** C6.  Each file found on the remote whose name is not excluded gets
    one copy instruction, and its target is the relative directory of
    the file, a separator, and the target name: the name of the POSCAR
    file when the file is named as the CONTCAR file and
    [contcar_to_poscar] is set, the name of the file itself otherwise. *)
Theorem restart_copy_targets (cwd : string) (defaults : Defaults) (fuel : nat)
    (self : CalculationBase) (remote_data : RemoteData)
    (folder_abspath : string) (fs fs' : lnode)
    (calcinfo calcinfo' : CalcInfo) :
  restart_folder (inputs self) = Some remote_data →
  restart_copy_remote cwd defaults fuel self folder_abspath fs calcinfo
    = Ok (fs', calcinfo') →
  ∃ files,
    remote_filelist cwd fuel remote_data "." = Ok files ∧
    remote_copy_list calcinfo' =
      remote_copy_list calcinfo ++
      map (fun e =>
             (computer_uuid remote_data, entry_abspath e,
              entry_relpath e +:+ "/" +:+
                target_name defaults (restart_contcar_to_poscar (inputs self))
                  (entry_name e)))
          (filter (fun e => py_in (entry_name e)
                              (restart_files_exclude defaults self) = false)
                  files) ∧
    ∀ name,
      (name = FNAMES_contcar defaults ∧
       restart_contcar_to_poscar (inputs self) = true →
         target_name defaults (restart_contcar_to_poscar (inputs self)) name
           = FNAMES_poscar defaults) ∧
      (name ≠ FNAMES_contcar defaults ∨
       restart_contcar_to_poscar (inputs self) = false →
         target_name defaults (restart_contcar_to_poscar (inputs self)) name
           = name).
Proof.
  intros Hfolder H.
  apply restart_copy_remote_inv in H as (rd & files & Hrd & Hfiles & Hloop).
  rewrite Hfolder in Hrd. injection Hrd as <-.
  exists files. split; [done|].
  apply restart_copy_loop_calcinfo in Hloop as [Hlist _].
  split; [done|].
  intros name. unfold target_name. split.
  - intros [-> ->]. by rewrite bool_decide_eq_true_2.
  - intros [Hne| ->].
    + by rewrite bool_decide_eq_false_2.
    + by rewrite andb_false_r.
Qed.

Lemma restart_copy_targets_witness :
  ∃ files,
    remote_filelist Example.cwd 3 Example.remote "." = Ok files ∧
    remote_copy_list Example.calcinfo_after =
      remote_copy_list CalcInfo_new ++
      map (fun e =>
             (computer_uuid Example.remote, entry_abspath e,
              entry_relpath e +:+ "/" +:+
                target_name Example.defaults
                  (restart_contcar_to_poscar (inputs Example.direct))
                  (entry_name e)))
          (filter (fun e => py_in (entry_name e)
                              (restart_files_exclude Example.defaults
                                 Example.direct) = false)
                  files) ∧
    ∀ name,
      (name = FNAMES_contcar Example.defaults ∧
       restart_contcar_to_poscar (inputs Example.direct) = true →
         target_name Example.defaults
           (restart_contcar_to_poscar (inputs Example.direct)) name
           = FNAMES_poscar Example.defaults) ∧
      (name ≠ FNAMES_contcar Example.defaults ∨
       restart_contcar_to_poscar (inputs Example.direct) = false →
         target_name Example.defaults
           (restart_contcar_to_poscar (inputs Example.direct)) name
           = name).
Proof.
  apply (restart_copy_targets Example.cwd Example.defaults 3 Example.direct
           Example.remote Example.folder Example.fs Example.fs_after).
  - reflexivity.
  - vm_compute. reflexivity.
Defined.

(** C7.  A file found on the remote is left out of the copy list
    exactly when its name is one of the excluded names: every
    instruction written comes from a file whose name is not excluded,
    and every file whose name is not excluded, wherever it lies, has its
    instruction; with listings that hold names, no instruction has a
    file with an excluded name as its source.  The excluded names are
    the name of the submit script, the name of the Custodian
    specification file, [job_tmpl.json] and [calcinfo.json]; a name is
    compared as a string with them, the path of the file is not looked
    at. *)
Theorem restart_copy_exclusion (cwd : string) (defaults : Defaults)
    (fuel : nat) (self : CalculationBase) (remote_data : RemoteData)
    (folder_abspath : string) (fs fs' : lnode)
    (calcinfo calcinfo' : CalcInfo) :
  restart_folder (inputs self) = Some remote_data →
  restart_copy_remote cwd defaults fuel self folder_abspath fs calcinfo
    = Ok (fs', calcinfo') →
  let exclude_files :=
    [ options_submit_script_filename (inputs self);
      Some (CSTDN_SPEC_FNAME defaults);
      Some "job_tmpl.json"; Some "calcinfo.json" ] in
  let instruction :=
    copy_entry_of defaults (computer_uuid remote_data)
      (restart_contcar_to_poscar (inputs self)) in
  ∃ files written,
    remote_filelist cwd fuel remote_data "." = Ok files ∧
    remote_copy_list calcinfo' = remote_copy_list calcinfo ++ written ∧
    (∀ m, m ∈ written →
       ∃ e, e ∈ files ∧ (Some (entry_name e) ∉ exclude_files) ∧
            m = instruction e) ∧
    (∀ e, e ∈ files → Some (entry_name e) ∉ exclude_files →
       instruction e ∈ written) ∧
    length written =
      length (filter (fun e => Some (entry_name e) ∉ exclude_files) files) ∧
    (listdir_valid_names remote_data →
     ∀ e, e ∈ files → Some (entry_name e) ∈ exclude_files →
       ∀ m, m ∈ written → m.1.2 ≠ entry_abspath e).
Proof.
  intros Hfolder H exclude_files instruction.
  apply restart_copy_remote_inv in H as (rd & files & Hrd & Hfiles & Hloop).
  rewrite Hfolder in Hrd. injection Hrd as <-.
  apply restart_copy_loop_calcinfo in Hloop as [Hlist _].
  fold instruction in Hlist.
  change (restart_files_exclude defaults self) with exclude_files in Hlist.
  assert (∀ e, py_in (entry_name e) exclude_files = false ↔
               Some (entry_name e) ∉ exclude_files) as Hin.
  { intros e. unfold py_in. by rewrite bool_decide_eq_false. }
  assert (∀ m, m ∈ map instruction
                     (filter (fun e => py_in (entry_name e) exclude_files = false)
                             files) →
       ∃ e, e ∈ files ∧ (Some (entry_name e) ∉ exclude_files) ∧
            m = instruction e) as Hfrom.
  { intros m Hm. apply list_elem_of_fmap in Hm as (e & -> & He).
    apply list_elem_of_filter in He as [He1 He2].
    exists e. by rewrite <- Hin. }
  eexists files, _. split; [done|]. split; [exact Hlist|]. split_and!.
  - exact Hfrom.
  - intros e He Hex. apply list_elem_of_fmap. exists e. split; [done|].
    apply list_elem_of_filter. by rewrite Hin.
  - rewrite length_map. f_equal. apply list_filter_iff. intros e. apply Hin.
  - intros Hvalid e He Hex m Hm Habs.
    apply Hfrom in Hm as (e' & He' & Hkept & ->).
    pose proof (remote_filelist_names _ _ _ _ Hvalid Hfiles) as Hnames.
    rewrite Forall_forall in Hnames.
    pose proof (Hnames e He) as Hn. pose proof (Hnames e' He') as Hn'.
    change ((instruction e').1.2) with (entry_abspath e') in Habs.
    rewrite Habs, Hn in Hn'. injection Hn' as Hn'.
    apply Hkept. by rewrite <- Hn'.
Qed.

Lemma restart_copy_exclusion_witness :
  ∃ files written,
    remote_filelist Example.cwd 3 Example.remote "." = Ok files ∧
    remote_copy_list Example.calcinfo_after =
      remote_copy_list CalcInfo_new ++ written ∧
    (∀ m, m ∈ written →
       ∃ e, e ∈ files ∧
            (Some (entry_name e) ∉
               [ Some "_aiidasubmit.sh"; Some "cstdn_spec.yaml";
                 Some "job_tmpl.json"; Some "calcinfo.json" ]) ∧
            m = copy_entry_of Example.defaults "computer-uuid" true e) ∧
    (∀ e, e ∈ files →
       Some (entry_name e) ∉
         [ Some "_aiidasubmit.sh"; Some "cstdn_spec.yaml";
           Some "job_tmpl.json"; Some "calcinfo.json" ] →
       copy_entry_of Example.defaults "computer-uuid" true e ∈ written) ∧
    length written =
      length (filter (fun e => Some (entry_name e) ∉
                         [ Some "_aiidasubmit.sh"; Some "cstdn_spec.yaml";
                           Some "job_tmpl.json"; Some "calcinfo.json" ])
                files) ∧
    (∀ e, e ∈ files →
       Some (entry_name e) ∈
         [ Some "_aiidasubmit.sh"; Some "cstdn_spec.yaml";
           Some "job_tmpl.json"; Some "calcinfo.json" ] →
       ∀ m, m ∈ written → m.1.2 ≠ entry_abspath e).
Proof.
  destruct (restart_copy_exclusion Example.cwd Example.defaults 3
              Example.direct Example.remote Example.folder Example.fs
              Example.fs_after CalcInfo_new Example.calcinfo_after)
    as (files & written & Hfiles & Hlist & Hfrom & Hto & Hlen & Hsrc).
  - reflexivity.
  - vm_compute. reflexivity.
  - exists files, written. split_and!; [done..|].
    apply Hsrc, tree_remote_valid_names. vm_compute. reflexivity.
Defined.

(** Names are compared as they are: [OUTCAR] in a directory named
    [job_tmpl.json] is copied, and so is [Job_tmpl.json]; the file
    [calcinfo.json] is left out, two directories down. *)
Example exclusion_is_by_name :
  snd <$> restart_copy_remote Example.cwd Example.defaults 4
            Example.names_run Example.folder Example.fs
            (mkCalcInfo None [] [] [] [] [] None)
  = Ok (mkCalcInfo None [] []
          [("computer-uuid", "/scratch/run1/job_tmpl.json/OUTCAR",
            "job_tmpl.json/OUTCAR");
           ("computer-uuid", "/scratch/run1/d/Job_tmpl.json",
            "d/Job_tmpl.json")]
          [] [] None).
Proof. vm_compute. reflexivity. Qed.



(** ** Resources and launcher templates *)




Lemma render_keyword (kwargs : gmap string pyval) (ps : list piece) :
  Forall (fun name => is_positional name = false) (pieces_fields ps) →
  ∀ out,
    (∃ s, render kwargs ps ScanDone out = Ok s) ∨
    (∃ f, f ∈ pieces_fields ps ∧ kwargs !! f = None ∧
          render kwargs ps ScanDone out = Raise (KeyError f)).
Proof.
  induction ps as [|[c|name] ps IH]; intros Hpos out.
  - left. by eexists.
  - apply (IH Hpos).
  - change (pieces_fields (Field name :: ps))
      with (name :: pieces_fields ps) in *.
    apply Forall_cons in Hpos as [Hname Hpos]. simpl. rewrite Hname.
    destruct (kwargs !! name) as [v|] eqn:Hv.
    + destruct (IH Hpos (out +:+ py_str v)) as [H|(f & Hf & Hnone & Hr)];
        [by left|].
      right. exists f. split; [by right|done].
    + right. exists name. split; [by left|done].
Qed.

Lemma py_format_keyword (kwargs : gmap string pyval) (template : string) :
  keyword_template template →
  (∃ s, py_format template kwargs = Ok s) ∨
  (∃ f, f ∈ template_fields template ∧ kwargs !! f = None ∧
        py_format template kwargs = Raise (KeyError f)).
Proof.
  unfold keyword_template, py_format, template_fields.
  destruct (scan_format template None) as [ps fin]. simpl.
  intros [-> Hpos]. by apply render_keyword.
Qed.

Lemma py_format_Ok_fields (kwargs : gmap string pyval) (template s f : string) :
  py_format template kwargs = Ok s → f ∈ template_fields template →
  is_Some (kwargs !! f).
Proof.
  unfold py_format, template_fields.
  destruct (scan_format template None) as [ps fin]. simpl.
  generalize "". induction ps as [|[c|name] ps IH]; intros out Hr Hf.
  - by apply elem_of_nil in Hf.
  - by apply (IH _ Hr).
  - simpl in Hr. destruct (is_positional name); [done|].
    change (f ∈ name :: pieces_fields ps) in Hf.
    destruct (kwargs !! name) as [v|] eqn:Hv; [|done].
    apply elem_of_cons in Hf as [->|Hf]; [by rewrite Hv|].
    by apply (IH _ Hr).
Qed.


Lemma mpi_arg_dict_of_None (job_resource : JobResource) (f : string) :
  mpi_arg_dict_of job_resource !! f = None ↔
  f ≠ "tot_num_mpiprocs" ∧ f ∉ (items job_resource).*1.
Proof.
  unfold mpi_arg_dict_of.
  assert (∀ l (d : gmap string pyval),
            foldl (fun d kv => <[kv.1 := kv.2]> d) d l !! f = None ↔
            d !! f = None ∧ f ∉ l.*1) as Hfold.
  { induction l as [|[k v] l IH]; intros d; simpl.
    - split; [|by intros [? _]]. intros H. split; [done|]. apply not_elem_of_nil.
    - rewrite IH, not_elem_of_cons. simpl. rewrite lookup_insert_None.
      split; [intros [[? ?] ?]|intros [? [? ?]]]; split_and!; done. }
  rewrite Hfold, lookup_singleton_None. split; intros [H1 H2]; split; done.
Qed.




(** ** The run line *)

(** C3.  The run line composed by [vasp_run_line]: without MPI it is the
    executable alone; with MPI it is the launcher tokens obtained from
    [vasp_calc_mpi_args], then the extra parameters of the user, then the
    executable, and a failure of [vasp_calc_mpi_args] is the failure of
    the composition. *)
Theorem vasp_run_line_composition (self : CalculationBase) :
  let vasp_exec := get_execname (code (inputs self)) in
  (options_withmpi (inputs self) = false →
     vasp_run_line self = Ok [vasp_exec]) ∧
  (options_withmpi (inputs self) = true →
     (∀ mpicmd mpiextra,
        vasp_calc_mpi_args self = Ok (mpicmd, mpiextra) →
        mpiextra = options_mpirun_extra_params (inputs self) ∧
        vasp_run_line self =
          Ok (mpicmd ++ options_mpirun_extra_params (inputs self)
                ++ [vasp_exec])) ∧
     (∀ e, vasp_calc_mpi_args self = Raise e →
        vasp_run_line self = Raise e)).
Proof.
  intros vasp_exec. unfold vasp_run_line. split; intros ->; [done|].
  split.
  - intros mpicmd mpiextra Hargs. rewrite Hargs. simpl.
    unfold vasp_calc_mpi_args in Hargs.
    destruct (vasp_job_resource self); [|done..]. simpl in Hargs.
    destruct (format_all _ _); [|done..]. simpl in Hargs.
    by injection Hargs as <- <-.
  - by intros e ->.
Qed.

Lemma vasp_run_line_composition_witness :
  vasp_run_line Example.direct =
  Ok (["mpirun"; "-np"; "32"] ++ ["--bind-to"; "core"] ++ ["vasp_std"]).
Proof.
  refine (proj2 (proj1 (proj2 (vasp_run_line_composition Example.direct)
                           eq_refl) ["mpirun"; "-np"; "32"]
                   ["--bind-to"; "core"] _)).
  vm_compute. reflexivity.
Defined.

Example run_line_without_mpi :
  vasp_run_line
    (mkCalculation "calc-uuid"
       (mkInputs Example.vasp false Example.resources ["--bind-to"; "core"]
          None None None true))
  = Ok ["vasp_std"].
Proof. reflexivity. Qed.

(** ** The execution plan *)

Lemma regular_run_keeps_codes_info : keeps_codes_info Example.regular_run.
Proof. by intros self folder_abspath fs calcinfo fs' calcinfo' [= _ <-]. Qed.

Lemma inputs_writer_keeps_codes_info (restart_run regular_run : InputsWriter)
    (self : CalculationBase) :
  keeps_codes_info restart_run → keeps_codes_info regular_run →
  keeps_codes_info (inputs_writer restart_run regular_run self).
Proof.
  intros Hrestart Hregular. unfold inputs_writer.
  by destruct (restart_folder (inputs self)).
Qed.

(** C4.  With a Custodian code among the inputs, the plan is built
    with one [CodeInfo] and handed to the method of the subclass, whose
    result is returned: this [CodeInfo] names the Custodian code, its
    command line is [run] followed by the name of the Custodian
    specification file, and its [withmpi] is [False], so that it is run
    without the MPI launcher whatever the [withmpi] option of the job
    says.  It is the one [CodeInfo] of the plan returned when the
    methods of the subclass leave the codes of the plan as they are. *)
Theorem supervised_plan (defaults : Defaults)
    (restart_run regular_run : InputsWriter) (self : CalculationBase)
    (custodian : Code) (folder_abspath : string) (fs : lnode) :
  custodian_code (inputs self) = Some custodian →
  ∃ codeinfo calcinfo,
    code_uuid codeinfo = Some (code_node_uuid custodian) ∧
    cmdline_params codeinfo = Some ["run"; CSTDN_SPEC_FNAME defaults] ∧
    withmpi codeinfo = Some false ∧
    (∀ option_withmpi, runs_with_mpi option_withmpi codeinfo = false) ∧
    codes_info calcinfo = [codeinfo] ∧
    prepare_for_submission defaults restart_run regular_run self
      folder_abspath fs =
      inputs_writer restart_run regular_run self self folder_abspath fs
        calcinfo ∧
    (keeps_codes_info restart_run → keeps_codes_info regular_run →
     ∀ fs' plan,
       prepare_for_submission defaults restart_run regular_run self
         folder_abspath fs = Ok (fs', plan) →
       codes_info plan = [codeinfo]).
Proof.
  intros Hcode.
  assert (∀ calcinfo,
            match restart_folder (inputs self) with
            | Some _ => restart_run self folder_abspath fs calcinfo
            | None => regular_run self folder_abspath fs calcinfo
            end =
            inputs_writer restart_run regular_run self self folder_abspath fs
              calcinfo) as Hcall.
  { intros calcinfo. unfold inputs_writer.
    by destruct (restart_folder (inputs self)). }
  unfold prepare_for_submission. rewrite Hcode, Hcall.
  match goal with
  | |- context [inputs_writer _ _ _ _ _ _ ?calcinfo] =>
      exists (hd (mkCodeInfo None None None None None) (codes_info calcinfo)),
             calcinfo
  end.
  split_and!; [reflexivity..|].
  intros Hrestart Hregular fs' plan Hplan.
  by rewrite (inputs_writer_keeps_codes_info _ _ self Hrestart Hregular
                _ _ _ _ _ _ Hplan).
Qed.

Lemma supervised_plan_witness :
  ∃ codeinfo,
    code_uuid codeinfo = Some "custodian-uuid" ∧
    cmdline_params codeinfo = Some ["run"; "cstdn_spec.yaml"] ∧
    withmpi codeinfo = Some false ∧
    runs_with_mpi true codeinfo = false ∧
    codes_info
      (mkCalcInfo (Some "calc-uuid")
         [mkCodeInfo (Some "custodian-uuid") (Some ["run"; "cstdn_spec.yaml"])
            None None (Some false)]
         [] (remote_copy_list Example.calcinfo_after) [] [] (Some SERIAL))
      = [codeinfo].
Proof.
  destruct (supervised_plan Example.defaults Example.restart_run
              Example.regular_run Example.supervised Example.custodian
              Example.folder Example.fs eq_refl)
    as (codeinfo & calcinfo & Huuid & Hcmd & Hmpi & Hruns & _ & _ & Hplan).
  exists codeinfo. split_and!; [done..|].
  apply (Hplan (restart_copy_remote_keeps_codes_info _ _ _)
               regular_run_keeps_codes_info Example.fs_after).
  vm_compute. reflexivity.
Defined.



(** The plans of the example: one [CodeInfo] each, the copy list of the
    restart in both. *)
Example example_plans :
  snd <$> prepare_for_submission Example.defaults Example.restart_run
            Example.regular_run Example.direct Example.folder Example.fs
  = Ok {| calc_uuid := Some "calc-uuid";
          codes_info :=
            [ {| code_uuid := Some "vasp-uuid"; cmdline_params := None;
                 stdout_name := Some "aiida.out";
                 stderr_name := Some "aiida.err"; withmpi := None |} ];
          local_copy_list := [];
          remote_copy_list := remote_copy_list Example.calcinfo_after;
          remote_symlink_list := []; retrieve_temporary_list := [];
          codes_run_mode := Some SERIAL |} ∧
  snd <$> prepare_for_submission Example.defaults Example.restart_run
            Example.regular_run Example.supervised Example.folder Example.fs
  = Ok {| calc_uuid := Some "calc-uuid";
          codes_info :=
            [ {| code_uuid := Some "custodian-uuid";
                 cmdline_params := Some ["run"; "cstdn_spec.yaml"];
                 stdout_name := None; stderr_name := None;
                 withmpi := Some false |} ];
          local_copy_list := [];
          remote_copy_list := remote_copy_list Example.calcinfo_after;
          remote_symlink_list := []; retrieve_temporary_list := [];
          codes_run_mode := Some SERIAL |}.
Proof. split; vm_compute; reflexivity. Qed.

(** [CalculationBase] itself does not implement the two methods:
    preparing its submission raises [NotImplementedError]. *)
Example prepare_for_submission_base :
  prepare_for_submission Example.defaults create_inputs_for_restart_run
    create_inputs_for_regular_run Example.direct Example.folder Example.fs
  = Raise NotImplementedError.
Proof. reflexivity. Qed.

(** * Further properties of the methods *)

(** ** The files found by a traversal *)

Lemma find_child_elem (entries : list (string * rnode)) (n : string)
    (c : rnode) :
  find_child n entries = Some c → (n, c) ∈ entries.
Proof.
  induction entries as [|[m d] entries IH]; simpl; [done|].
  destruct (decide (m = n)) as [->|Hne].
  - rewrite bool_decide_eq_true_2 by done. intros [= ->]. by left.
  - rewrite bool_decide_eq_false_2 by done. intros H. right. by apply IH.
Qed.

Lemma wf_tree_child (entries : list (string * rnode)) (n : string)
    (c : rnode) :
  wf_tree (RDir entries) = true → (n, c) ∈ entries →
  valid_name n = true ∧ wf_tree c = true.
Proof.
  intros (Hval & _ & Hwf)%wf_tree_dir Hin.
  rewrite Forall_forall in Hval. rewrite Forall_forall in Hwf. split.
  - apply Hval. apply list_elem_of_fmap. by exists (n, c).
  - by apply (Hwf (n, c)).
Qed.

(** The components of a path that leads somewhere in a well-formed
    tree are names. *)
Lemma resolve_valid (q : list string) :
  ∀ t node, wf_tree t = true → resolve t q = inl node →
            Forall (fun x => valid_name x = true) q.
Proof.
  induction q as [|c q IH]; intros t node Hwf Hres; [done|].
  simpl in Hres. destruct t as [|entries|e]; [done| |done].
  destruct (find_child c entries) as [t'|] eqn:Hfind; [|done].
  apply find_child_elem in Hfind.
  destruct (wf_tree_child _ _ _ Hwf Hfind) as [Hc Hwf'].
  constructor; [done|]. by apply (IH t' node).
Qed.

Lemma leaf_nodes_of_elem (dir : list string) (entries : list (string * rnode))
    (x : list string * string * exn) :
  x ∈ leaf_nodes_of dir entries ↔
  ∃ n c, (n, c) ∈ entries ∧ x ∈ leaf_nodes dir n c.
Proof.
  unfold leaf_nodes_of. rewrite list_elem_of_In, in_flat_map. split.
  - intros ([n c] & Hin & Hx). exists n, c.
    by rewrite !list_elem_of_In.
  - intros (n & c & Hin & Hx). exists (n, c).
    by rewrite <- !list_elem_of_In.
Qed.

(** The nodes met below a node are the nodes that are not directories,
    each found along its path. *)
Lemma leaf_nodes_resolve (t : rnode) :
  wf_tree t = true →
  ∀ dir name x,
    x ∈ leaf_nodes dir name t ↔
    ∃ q leaf, leaf_path x = dir ++ name :: q ∧ resolve t q = inl leaf ∧
              listing_error leaf = Some x.2.
Proof.
  induction t as [|e|entries IH] using rnode_ind_nested; intros Hwf dir name x.
  - simpl. rewrite list_elem_of_singleton. split.
    + intros ->. by exists [], RFile.
    + intros (q & leaf & Hpath & Hres & Herr).
      destruct q as [|c q]; [|done]. injection Hres as <-.
      destruct x as [[d n] ex]. unfold leaf_path in Hpath. simpl in *.
      apply app_inj_tail in Hpath as [-> ->]. by injection Herr as <-.
  - simpl. rewrite list_elem_of_singleton. split.
    + intros ->. by exists [], (RBroken e).
    + intros (q & leaf & Hpath & Hres & Herr).
      destruct q as [|c q]; [|done]. injection Hres as <-.
      destruct x as [[d n] ex]. unfold leaf_path in Hpath. simpl in *.
      apply app_inj_tail in Hpath as [-> ->]. by injection Herr as <-.
  - rewrite leaf_nodes_dir, leaf_nodes_of_elem.
    rewrite Forall_forall in IH.
    pose proof (wf_tree_dir _ Hwf) as (_ & Hnd & _). split.
    + intros (n & c & Hin & Hx).
      destruct (wf_tree_child _ _ _ Hwf Hin) as [_ Hwfc].
      apply (IH (n, c) Hin Hwfc) in Hx as (q & leaf & Hpath & Hres & Herr).
      exists (n :: q), leaf. split_and!; [|
        by simpl; rewrite (find_child_NoDup _ _ _ Hnd Hin)|done].
      by rewrite Hpath, <- app_assoc.
    + intros (q & leaf & Hpath & Hres & Herr).
      destruct q as [|n q]; [by injection Hres as <-|].
      simpl in Hres.
      destruct (find_child n entries) as [c|] eqn:Hfind; [|done].
      apply find_child_elem in Hfind. exists n, c. split; [done|].
      destruct (wf_tree_child _ _ _ Hwf Hfind) as [_ Hwfc].
      apply (IH (n, c) Hfind Hwfc). exists q, leaf.
      by rewrite Hpath, <- app_assoc.
Qed.

Lemma leaf_nodes_of_resolve (entries : list (string * rnode))
    (x : list string * string * exn) :
  wf_tree (RDir entries) = true →
  x ∈ leaf_nodes_of [] entries ↔
  ∃ leaf, resolve (RDir entries) (leaf_path x) = inl leaf ∧
          listing_error leaf = Some x.2.
Proof.
  intros Hwf. pose proof (wf_tree_dir _ Hwf) as (_ & Hnd & _).
  rewrite leaf_nodes_of_elem. split.
  - intros (n & c & Hin & Hx).
    destruct (wf_tree_child _ _ _ Hwf Hin) as [_ Hwfc].
    apply (leaf_nodes_resolve c Hwfc) in Hx as (q & leaf & Hpath & Hres & Herr).
    exists leaf. split; [|done]. rewrite Hpath. simpl.
    by rewrite (find_child_NoDup _ _ _ Hnd Hin).
  - intros (leaf & Hres & Herr).
    destruct (leaf_path x) as [|n q] eqn:Hpath.
    { destruct x as [[d m] ex]. by destruct d. }
    simpl in Hres.
    destruct (find_child n entries) as [c|] eqn:Hfind; [|done].
    apply find_child_elem in Hfind. exists n, c. split; [done|].
    destruct (wf_tree_child _ _ _ Hwf Hfind) as [_ Hwfc].
    apply (leaf_nodes_resolve c Hwfc). by exists q, leaf.
Qed.

(** A list of names is read back from what [pathlib] writes for it. *)
Lemma rel_str_inj (d1 d2 : list string) :
  Forall (fun x => valid_name x = true) d1 →
  Forall (fun x => valid_name x = true) d2 →
  rel_str d1 = rel_str d2 → d1 = d2.
Proof.
  intros H1 H2 Heq.
  destruct (rel_str_spec d1 (Forall_valid_kept _ H1)) as [_ <-].
  destruct (rel_str_spec d2 (Forall_valid_kept _ H2)) as [_ <-].
  by rewrite Heq.
Qed.

(** The list returned by the traversal of a tree. *)
Lemma remote_filelist_tree_inv (cwd remote_path uuid : string)
    (entries : list (string * rnode)) (fuel : nat) (files : list FileEntry) :
  wf_tree (RDir entries) = true → (depth (RDir entries) < fuel)%nat →
  remote_filelist cwd fuel (tree_remote remote_path uuid (RDir entries)) "."
    = Ok files →
  files = map (fun x => leaf_entry cwd remote_path x.1.1 x.1.2)
              (leaf_nodes_of [] entries).
Proof.
  intros Hwf Hfuel.
  rewrite (remote_filelist_node cwd remote_path uuid _ _ Hwf fuel [] ".")
    by done.
  simpl. rewrite collect_first_uncaught.
  destruct (first_uncaught _); [done|]. by intros [= <-].
Qed.



Lemma NoDup_fmap_via {A B C : Type} (f : A → B) (g : A → C) (l : list A) :
  NoDup (f <$> l) →
  (∀ x y, x ∈ l → y ∈ l → g x = g y → f x = f y) →
  NoDup (g <$> l).
Proof.
  induction l as [|a l IH]; intros Hnd Hinj; [constructor|].
  rewrite fmap_cons in Hnd. rewrite fmap_cons.
  apply NoDup_cons in Hnd as [Ha Hnd]. apply NoDup_cons. split.
  - intros (y & Hy & Hin)%list_elem_of_fmap. apply Ha.
    apply list_elem_of_fmap. exists y. split; [|done].
    apply Hinj; [by left|by right|done].
  - apply IH; [done|]. intros x y Hx Hy. apply Hinj; by right.
Qed.

Lemma leaf_nodes_of_NoDup_children (d : list string)
    (entries : list (string * rnode)) :
  NoDup entries.*1 →
  Forall (fun nc => wf_tree nc.2 = true) entries →
  Forall (fun nc => ∀ dir name,
            NoDup (leaf_path <$> leaf_nodes dir name nc.2)) entries →
  NoDup (leaf_path <$> leaf_nodes_of d entries).
Proof.
  induction entries as [|[n c] entries IH]; intros Hnd Hwf Hch; [constructor|].
  change (leaf_nodes_of d ((n, c) :: entries))
    with (leaf_nodes d n c ++ leaf_nodes_of d entries).
  apply Forall_cons in Hch as [Hc Hch]. apply Forall_cons in Hwf as [Hwfc Hwf].
  simpl in Hnd, Hwfc. apply NoDup_cons in Hnd as [Hn Hnd].
  rewrite fmap_app. apply NoDup_app. split_and!.
  - apply Hc.
  - intros p (x & -> & Hx)%list_elem_of_fmap (y & Heq & Hy)%list_elem_of_fmap.
    apply (leaf_nodes_resolve c Hwfc) in Hx as (q & ? & Hpx & _).
    apply leaf_nodes_of_elem in Hy as (n' & c' & Hin' & Hy).
    rewrite Forall_forall in Hwf.
    apply (leaf_nodes_resolve c' (Hwf (n', c') Hin')) in Hy
      as (q' & ? & Hpy & _).
    rewrite Hpx, Hpy in Heq. apply app_inv_head in Heq.
    injection Heq as -> _. apply Hn. apply list_elem_of_fmap.
    by exists (n', c').
  - by apply IH.
Qed.

Lemma leaf_nodes_NoDup (t : rnode) :
  wf_tree t = true →
  ∀ dir name, NoDup (leaf_path <$> leaf_nodes dir name t).
Proof.
  induction t as [|e|entries IH] using rnode_ind_nested; intros Hwf dir name.
  - apply NoDup_singleton.
  - apply NoDup_singleton.
  - rewrite leaf_nodes_dir.
    destruct (wf_tree_dir _ Hwf) as (_ & Hnd & Hwfs).
    apply leaf_nodes_of_NoDup_children; [done..|].
    rewrite Forall_forall in IH. rewrite Forall_forall in Hwfs.
    apply Forall_forall. intros nc Hin. by apply IH, Hwfs.
Qed.

Lemma leaf_nodes_of_NoDup (entries : list (string * rnode)) :
  wf_tree (RDir entries) = true →
  NoDup (leaf_path <$> leaf_nodes_of [] entries).
Proof.
  intros Hwf. destruct (wf_tree_dir _ Hwf) as (_ & Hnd & Hwfs).
  apply leaf_nodes_of_NoDup_children; [done..|].
  eapply Forall_impl; [exact Hwfs|]. intros nc Hnc. by apply leaf_nodes_NoDup.
Qed.

Lemma leaf_nodes_of_valid (entries : list (string * rnode))
    (x : list string * string * exn) :
  wf_tree (RDir entries) = true → x ∈ leaf_nodes_of [] entries →
  Forall (fun c => valid_name c = true) x.1.1 ∧ valid_name x.1.2 = true.
Proof.
  intros Hwf (leaf & Hres & _)%leaf_nodes_of_resolve; [|done].
  apply resolve_valid in Hres; [|done].
  apply Forall_app in Hres as [Hdir Hname]. split; [done|].
  by inversion Hname.
Qed.

(** The absolute path of a node tells where the node lies. *)
Lemma abspath_inj (cwd base : string) (p1 p2 : list string) :
  Forall (fun c => valid_name c = true) p1 →
  Forall (fun c => valid_name c = true) p2 →
  path_str (absolute cwd
    (mkPath (root (Path base)) (parts (Path base) ++ p1))) =
  path_str (absolute cwd
    (mkPath (root (Path base)) (parts (Path base) ++ p2))) →
  p1 = p2.
Proof.
  intros H1 H2 Heq. apply (f_equal Path) in Heq.
  destruct (wf_path_Path base) as [Hroot Hparts].
  rewrite !Path_path_str in Heq
    by (apply wf_path_absolute; split; [done|by apply Forall_app]).
  unfold absolute, joinpath, is_absolute in Heq. simpl in Heq.
  destruct (bool_decide (root (Path base) = "")); simpl in Heq;
    injection Heq as Heq; by repeat apply app_inv_head in Heq.
Qed.

Lemma remote_filelist_tree_NoDup (cwd remote_path uuid : string)
    (entries : list (string * rnode)) (fuel : nat) (files : list FileEntry) :
  wf_tree (RDir entries) = true → (depth (RDir entries) < fuel)%nat →
  remote_filelist cwd fuel (tree_remote remote_path uuid (RDir entries)) "."
    = Ok files →
  NoDup (entry_abspath <$> files) ∧
  NoDup ((fun e => (entry_relpath e, entry_name e)) <$> files).
Proof.
  intros Hwf Hfuel Hfiles.
  rewrite (remote_filelist_tree_inv _ _ _ _ _ _ Hwf Hfuel Hfiles).
  pose proof (leaf_nodes_of_NoDup entries Hwf) as Hnd.
  change (map ?f ?l) with (f <$> l). rewrite <- !list_fmap_compose.
  split; apply (NoDup_fmap_via leaf_path); try done; intros x y Hx Hy Heq;
    destruct (leaf_nodes_of_valid _ _ Hwf Hx) as [Hxd Hxn];
    destruct (leaf_nodes_of_valid _ _ Hwf Hy) as [Hyd Hyn].
  - apply (abspath_inj cwd (remote_path +:+ "/")); [| |exact Heq];
      apply Forall_app; split; try done; by constructor.
  - simpl in Heq. injection Heq as Hrel Hname.
    change (x.1.2 = y.1.2) in Hname.
    unfold leaf_path. by rewrite (rel_str_inj _ _ Hxd Hyd Hrel), Hname.
Qed.

(** X2.  The traversal of a remote folder that is a well-formed tree
    returns no file twice: the absolute paths of its entries differ from
    one another, and so do the pairs of a relative directory and a
    name. *)
Theorem remote_filelist_no_duplicates (cwd remote_path uuid : string)
    (entries : list (string * rnode)) (fuel : nat) (files : list FileEntry) :
  wf_tree (RDir entries) = true → (depth (RDir entries) < fuel)%nat →
  remote_filelist cwd fuel (tree_remote remote_path uuid (RDir entries)) "."
    = Ok files →
  NoDup (entry_abspath <$> files) ∧
  NoDup ((fun e => (entry_relpath e, entry_name e)) <$> files).
Proof. apply remote_filelist_tree_NoDup. Qed.

Lemma remote_filelist_no_duplicates_witness :
  NoDup (entry_abspath <$>
           [("CONTCAR", "/scratch/run1/a/CONTCAR", "a");
            ("OUTCAR", "/scratch/run1/a/OUTCAR", "a");
            ("job_tmpl.json", "/scratch/run1/b/job_tmpl.json", "b")]) ∧
  NoDup ((fun e => (entry_relpath e, entry_name e)) <$>
           [("CONTCAR", "/scratch/run1/a/CONTCAR", "a");
            ("OUTCAR", "/scratch/run1/a/OUTCAR", "a");
            ("job_tmpl.json", "/scratch/run1/b/job_tmpl.json", "b")]).
Proof.
  apply (remote_filelist_no_duplicates Example.cwd "/scratch/run1"
           "computer-uuid"
           [("a", RDir [("CONTCAR", RFile); ("OUTCAR", RFile)]);
            ("b", RDir [("job_tmpl.json", RFile)])] 3).
  - vm_compute. reflexivity.
  - vm_compute. lia.
  - vm_compute. reflexivity.
Defined.

(** X3.  Whatever the remote folder lists, the three parts of an entry
    fit together: the absolute path is the path of the folder joined
    with the relative directory and the name of the entry, made absolute
    and written by [pathlib]; in a process whose working directory is
    absolute it is an absolute path, and it is in normal form:
    [str(Path(..))] leaves it as it is. *)
Theorem remote_filelist_entry_paths (cwd : string) (remote_data : RemoteData)
    (fuel : nat) (files : list FileEntry) :
  is_absolute (Path cwd) = true →
  remote_filelist cwd fuel remote_data "." = Ok files →
  Forall (fun e =>
            entry_abspath e =
              path_str (absolute cwd
                (Path (get_remote_path remote_data +:+ "/" +:+
                       entry_relpath e +:+ "/" +:+ entry_name e))) ∧
            is_absolute (Path (entry_abspath e)) = true ∧
            normpath (entry_abspath e) = entry_abspath e)
         files.
Proof.
  intros Hcwd.
  apply (remote_filelist_entries cwd remote_data (fun _ => True)); [| |done].
  - intros r names _. by apply Forall_true.
  - intros r name Hr _. cbn [entry_abspath entry_relpath entry_name fst snd].
    destruct (normpath_relative r Hr) as (_ & Hrel & Hcomp).
    split_and!.
    + apply abspath_same_components; [by apply subpath_relative..|].
      by rewrite !components_app, Hcomp.
    + rewrite Path_path_str by apply wf_path_absolute, wf_path_Path.
      unfold absolute.
      destruct (is_absolute (Path (get_remote_path remote_data +:+ _)))
        eqn:Habs; [exact Habs|].
      unfold joinpath. rewrite Habs. exact Hcwd.
    + unfold normpath.
      by rewrite Path_path_str by apply wf_path_absolute, wf_path_Path.
Qed.

Lemma remote_filelist_entry_paths_witness :
  Forall (fun e =>
            entry_abspath e =
              path_str (absolute Example.cwd
                (Path (get_remote_path Example.remote +:+ "/" +:+
                       entry_relpath e +:+ "/" +:+ entry_name e))) ∧
            is_absolute (Path (entry_abspath e)) = true ∧
            normpath (entry_abspath e) = entry_abspath e)
         [("CONTCAR", "/scratch/run1/a/CONTCAR", "a");
          ("OUTCAR", "/scratch/run1/a/OUTCAR", "a");
          ("job_tmpl.json", "/scratch/run1/b/job_tmpl.json", "b")].
Proof.
  apply (remote_filelist_entry_paths Example.cwd Example.remote 3).
  - reflexivity.
  - vm_compute. reflexivity.
Defined.

(** ** What a restart copy changes *)

Lemma set_remote_copy_list_same (calcinfo : CalcInfo) :
  set_remote_copy_list calcinfo (remote_copy_list calcinfo) = calcinfo.
Proof. by destruct calcinfo. Qed.

Section RestartCopyFrame.
Variable cwd : string.
Variable defaults : Defaults.
Variable remote_comp_uuid : string.
Variable exclude_files : list (option string).
Variable overwrite_poscar : bool.
Variable folder_abspath : string.

Let step := restart_copy_step cwd defaults remote_comp_uuid exclude_files
              overwrite_poscar folder_abspath.
Let loop := restart_copy_loop cwd defaults remote_comp_uuid exclude_files
              overwrite_poscar folder_abspath.
Let kept (e : FileEntry) : Prop := py_in (entry_name e) exclude_files = false.

(** The loop writes to the copy list of the [calcinfo] and to nothing
    else of it. *)
Lemma restart_copy_loop_frame files :
  ∀ fs calcinfo fs' calcinfo',
    loop files (fs, calcinfo) = Ok (fs', calcinfo') →
    calcinfo' = set_remote_copy_list calcinfo (remote_copy_list calcinfo').
Proof.
  induction files as [|e files IH]; intros fs calcinfo fs' calcinfo'.
  - simpl. intros [= _ <-]. by rewrite set_remote_copy_list_same.
  - unfold loop. cbn [restart_copy_loop]. fold step. fold loop.
    destruct (step (fs, calcinfo) e) as [[fs1 calcinfo1]| | |] eqn:Hstep;
      simpl; [|done..].
    intros Hloop. apply IH in Hloop.
    apply restart_copy_step_calcinfo in Hstep.
    destruct (py_in (entry_name e) exclude_files); subst calcinfo1; [done|].
    by rewrite Hloop at 1.
Qed.

(** A regular file above a path: the path cannot be looked at, and no
    directory can be made at it. *)
Lemma os_stat_file_above (q : list string) :
  ∀ fs k, is_file fs q = true → strictly_above q k →
    os_stat fs k = Raise (OSError ENOTDIR) ∧
    os_mkdir fs k = Raise (OSError ENOTDIR).
Proof.
  induction q as [|c q IH]; intros fs k Hfile [Hpre Hne].
  - destruct k as [|c k]; [done|]. by destruct fs.
  - destruct k as [|c' k]; [by apply prefix_nil_not in Hpre|].
    pose proof (prefix_cons_inv_1 _ _ _ _ Hpre) as ->.
    apply prefix_cons_inv_2 in Hpre.
    unfold is_file in Hfile. simpl in *.
    destruct fs as [|entries]; [done|].
    destruct (lfind c' entries) as [t|]; [|done].
    destruct (IH t k) as [-> ->]; [done| |done].
    split; [done|]. by intros ->.
Qed.

Lemma no_file_on_dec (fs : lnode) (k : list string) :
  no_file_on fs k ∨ ∃ q, q `prefix_of` k ∧ is_file fs q = true.
Proof.
  induction k as [|c k IH] using rev_ind.
  - destruct (is_file fs []) eqn:Hf.
    + right. by exists [].
    + left. intros q Hq. by apply prefix_nil_inv in Hq as ->.
  - destruct IH as [Hno|(q & Hq & Hf)].
    + destruct (is_file fs (k ++ [c])) eqn:Hf.
      * right. by exists (k ++ [c]).
      * left. intros q [Hq| ->]%prefix_snoc_inv; [by apply Hno|done].
    + right. exists q. split; [by apply prefix_app_r|done].
Qed.

(** A file to copy whose directory lies below a regular file of the
    local file system: the turn of the loop raises. *)
Lemma restart_copy_step_blocked fs calcinfo e q :
  kept e → is_file fs q = true →
  strictly_above q (local_parent cwd folder_abspath e) →
  step (fs, calcinfo) e = Raise (OSError ENOTDIR).
Proof.
  unfold kept, step, restart_copy_step, local_parent.
  destruct e as [[name abspath] relpath]. cbn [entry_name entry_relpath fst snd].
  intros -> Hfile Habove.
  destruct (os_stat_file_above q fs _ Hfile Habove) as [Hstat Hmk].
  unfold path_exists. rewrite Hstat. simpl.
  unfold Path_mkdir_parents.
  destruct (fs_key cwd _) as [|c k] eqn:Hk.
  { destruct Habove as [Hpre Hne]. by apply prefix_nil_inv in Hpre. }
  simpl length. cbn [mkdir_parents]. by rewrite Hmk.
Qed.

(** A turn of the loop leaves the regular files as they are, or raises
    for a regular file that is in the way. *)
Lemma restart_copy_step_files fs calcinfo e :
  (∃ fs' calcinfo', step (fs, calcinfo) e = Ok (fs', calcinfo') ∧
                    ∀ q, is_file fs' q = is_file fs q) ∨
  step (fs, calcinfo) e = Raise (OSError ENOTDIR).
Proof.
  destruct (decide (kept e)) as [Hkept|Hkept].
  - destruct (path_exists fs (local_parent cwd folder_abspath e)) eqn:Hex.
    + destruct (restart_copy_step_exists cwd defaults remote_comp_uuid
                  exclude_files overwrite_poscar folder_abspath
                  fs calcinfo e Hex) as [calcinfo' Hstep].
      left. by exists fs, calcinfo'.
    + destruct (no_file_on_dec fs (local_parent cwd folder_abspath e))
        as [Hno|(q & Hq & Hf)].
      * destruct (restart_copy_step_grown cwd defaults remote_comp_uuid
                    exclude_files overwrite_poscar folder_abspath
                    fs calcinfo e Hkept Hno)
          as (fs' & calcinfo' & Hstep & _ & Hfiles).
        left. by exists fs', calcinfo'.
      * right. apply (restart_copy_step_blocked _ _ _ q); [done..|].
        split; [done|]. intros ->.
        by rewrite path_exists_split, Hf, orb_true_r in Hex.
  - left. exists fs, calcinfo. split; [|done].
    by apply restart_copy_step_excluded.
Qed.

Lemma restart_copy_loop_blocked files e q :
  e ∈ files → kept e →
  ∀ fs calcinfo,
    is_file fs q = true →
    strictly_above q (local_parent cwd folder_abspath e) →
    loop files (fs, calcinfo) = Raise (OSError ENOTDIR).
Proof.
  intros He Hkept.
  induction files as [|e0 files IH]; intros fs calcinfo Hfile Habove.
  - by apply elem_of_nil in He.
  - unfold loop. cbn [restart_copy_loop]. fold step. fold loop.
    apply elem_of_cons in He as [<-|He].
    + by rewrite (restart_copy_step_blocked fs calcinfo e q).
    + destruct (restart_copy_step_files fs calcinfo e0)
        as [(fs' & calcinfo' & -> & Hfiles)| ->]; [|done].
      simpl. apply IH; [done| |done]. by rewrite Hfiles.
Qed.

End RestartCopyFrame.

(** X4.  [restart_copy_remote] writes to the [remote_copy_list] of the
    [calcinfo] it is given and leaves the rest of it as it is: the
    identifier, the codes, the other lists and the run mode are those it
    was given, and the instructions that the list held are kept, in
    front of the new ones. *)
Theorem restart_copy_frame (cwd : string) (defaults : Defaults) (fuel : nat)
    (self : CalculationBase) (folder_abspath : string) (fs fs' : lnode)
    (calcinfo calcinfo' : CalcInfo) :
  restart_copy_remote cwd defaults fuel self folder_abspath fs calcinfo
    = Ok (fs', calcinfo') →
  calc_uuid calcinfo' = calc_uuid calcinfo ∧
  codes_info calcinfo' = codes_info calcinfo ∧
  local_copy_list calcinfo' = local_copy_list calcinfo ∧
  remote_symlink_list calcinfo' = remote_symlink_list calcinfo ∧
  retrieve_temporary_list calcinfo' = retrieve_temporary_list calcinfo ∧
  codes_run_mode calcinfo' = codes_run_mode calcinfo ∧
  remote_copy_list calcinfo `prefix_of` remote_copy_list calcinfo'.
Proof.
  intros H.
  apply restart_copy_remote_inv in H as (rd & files & _ & _ & Hloop).
  pose proof (restart_copy_loop_frame _ _ _ _ _ _ _ _ _ _ _ Hloop) as Hframe.
  apply restart_copy_loop_calcinfo in Hloop as [Hlist _].
  rewrite Hframe. split_and!; try done.
  simpl. rewrite Hlist. by apply prefix_app_r.
Qed.

Lemma restart_copy_frame_witness :
  calc_uuid Example.calcinfo_after = calc_uuid CalcInfo_new ∧
  codes_info Example.calcinfo_after = codes_info CalcInfo_new ∧
  local_copy_list Example.calcinfo_after = local_copy_list CalcInfo_new ∧
  remote_symlink_list Example.calcinfo_after
    = remote_symlink_list CalcInfo_new ∧
  retrieve_temporary_list Example.calcinfo_after
    = retrieve_temporary_list CalcInfo_new ∧
  codes_run_mode Example.calcinfo_after = codes_run_mode CalcInfo_new ∧
  remote_copy_list CalcInfo_new
    `prefix_of` remote_copy_list Example.calcinfo_after.
Proof.
  apply (restart_copy_frame Example.cwd Example.defaults 3 Example.direct
           Example.folder Example.fs Example.fs_after).
  vm_compute. reflexivity.
Defined.

(** X5.  Where no regular file of the local file system lies on the
    way, [restart_copy_remote] makes the directories of the files it
    writes an instruction for, with the directories above them, and
    nothing else: a path is a directory afterwards exactly when it was
    one or lies on the way to the local directory of such a file, and
    the regular files are those there were.  A remote directory that
    holds excluded files only, or no file, is not made. *)
Theorem restart_copy_creates_only_needed (cwd : string) (defaults : Defaults)
    (fuel : nat) (self : CalculationBase) (remote_data : RemoteData)
    (files : list FileEntry) (folder_abspath : string) (fs : lnode)
    (calcinfo : CalcInfo) :
  restart_folder (inputs self) = Some remote_data →
  remote_filelist cwd fuel remote_data "." = Ok files →
  (∀ e, e ∈ files →
     py_in (entry_name e) (restart_files_exclude defaults self) = false →
     no_file_on fs (local_parent cwd folder_abspath e)) →
  ∃ fs' calcinfo',
    restart_copy_remote cwd defaults fuel self folder_abspath fs calcinfo
      = Ok (fs', calcinfo') ∧
    (∀ q, is_dir fs' q = true ↔
          is_dir fs q = true ∨
          ∃ e, e ∈ files ∧
               py_in (entry_name e) (restart_files_exclude defaults self)
                 = false ∧
               q `prefix_of` local_parent cwd folder_abspath e) ∧
    (∀ q, is_file fs' q = is_file fs q).
Proof.
  intros Hfolder Hfiles Hno. unfold restart_copy_remote.
  rewrite Hfolder, Hfiles. simpl.
  by apply restart_copy_loop_grown.
Qed.

Lemma restart_copy_creates_only_needed_witness :
  ∃ fs' calcinfo',
    restart_copy_remote Example.cwd Example.defaults 3 Example.direct
      Example.folder Example.fs CalcInfo_new = Ok (fs', calcinfo') ∧
    (∀ q, is_dir fs' q = true ↔
          is_dir Example.fs q = true ∨
          ∃ e, e ∈ [("CONTCAR", "/scratch/run1/a/CONTCAR", "a");
                    ("OUTCAR", "/scratch/run1/a/OUTCAR", "a");
                    ("job_tmpl.json", "/scratch/run1/b/job_tmpl.json", "b")] ∧
               py_in (entry_name e)
                 (restart_files_exclude Example.defaults Example.direct)
                 = false ∧
               q `prefix_of` local_parent Example.cwd Example.folder e) ∧
    (∀ q, is_file fs' q = is_file Example.fs q).
Proof.
  apply (restart_copy_creates_only_needed Example.cwd Example.defaults 3
           Example.direct Example.remote).
  - reflexivity.
  - vm_compute. reflexivity.
  - intros e He _ q Hq.
    assert (q `prefix_of` ["tmp"; "aiida-folder"; "a"] ∨
            q `prefix_of` ["tmp"; "aiida-folder"; "b"]) as Hq'.
    { repeat (apply elem_of_cons in He as [->|He]); [by left..|by right|].
      by apply elem_of_nil in He. }
    clear He Hq.
    assert (∀ c, q `prefix_of` ["tmp"; "aiida-folder"; c] →
                 is_file Example.fs q = false) as Hc.
    { intros c [r Hr].
      destruct q as [|x1 [|x2 [|x3 [|x4 q]]]]; simplify_eq/=; done. }
    destruct Hq' as [Hq'|Hq']; by eapply Hc.
Defined.

(** X6.  When the local directory wanted for a file to copy lies
    below a regular file of the local file system, [restart_copy_remote]
    raises the "not a directory" [OSError] of [mkdir] and returns no
    [calcinfo], whatever the other files are. *)
Theorem restart_copy_blocked_by_file (cwd : string) (defaults : Defaults)
    (fuel : nat) (self : CalculationBase) (remote_data : RemoteData)
    (files : list FileEntry) (folder_abspath : string) (fs : lnode)
    (calcinfo : CalcInfo) (e : FileEntry) (q : list string) :
  restart_folder (inputs self) = Some remote_data →
  remote_filelist cwd fuel remote_data "." = Ok files →
  e ∈ files →
  py_in (entry_name e) (restart_files_exclude defaults self) = false →
  is_file fs q = true →
  strictly_above q (local_parent cwd folder_abspath e) →
  restart_copy_remote cwd defaults fuel self folder_abspath fs calcinfo
    = Raise (OSError ENOTDIR).
Proof.
  intros Hfolder Hfiles He Hkept Hfile Habove. unfold restart_copy_remote.
  rewrite Hfolder, Hfiles. simpl.
  by apply (restart_copy_loop_blocked _ _ _ _ _ _ _ e q).
Qed.

Lemma restart_copy_blocked_by_file_witness :
  restart_copy_remote Example.cwd Example.defaults 4 Restart.run
    Example.folder Restart.fs_run_is_file CalcInfo_new
  = Raise (OSError ENOTDIR).
Proof.
  apply (restart_copy_blocked_by_file Example.cwd Example.defaults 4
           Restart.run Restart.remote Restart.files Example.folder
           Restart.fs_run_is_file CalcInfo_new
           ("OUTCAR", "/scratch/run2/run/sub/OUTCAR", "run/sub")
           ["tmp"; "aiida-folder"; "run"]).
  - reflexivity.
  - vm_compute. reflexivity.
  - apply list_elem_of_here.
  - vm_compute. reflexivity.
  - reflexivity.
  - split; [by exists ["sub"]|discriminate].
Defined.

(** X7.  Where the local directory wanted for each file to copy is a
    path that exists, [restart_copy_remote] makes no directory and
    raises no error: it looks at whether the path exists, not at what it
    is, so that a regular file at this place passes; the local file
    system is left as it is and the instructions are written all the
    same. *)
Theorem restart_copy_existing_paths (cwd : string) (defaults : Defaults)
    (fuel : nat) (self : CalculationBase) (remote_data : RemoteData)
    (files : list FileEntry) (folder_abspath : string) (fs : lnode)
    (calcinfo : CalcInfo) :
  restart_folder (inputs self) = Some remote_data →
  remote_filelist cwd fuel remote_data "." = Ok files →
  (∀ e, e ∈ files →
     py_in (entry_name e) (restart_files_exclude defaults self) = false →
     path_exists fs (local_parent cwd folder_abspath e) = true) →
  ∃ calcinfo',
    restart_copy_remote cwd defaults fuel self folder_abspath fs calcinfo
      = Ok (fs, calcinfo') ∧
    remote_copy_list calcinfo' =
      remote_copy_list calcinfo ++
      map (copy_entry_of defaults (computer_uuid remote_data)
             (restart_contcar_to_poscar (inputs self)))
          (filter (fun e => py_in (entry_name e)
                              (restart_files_exclude defaults self) = false)
                  files).
Proof.
  intros Hfolder Hfiles Hex. unfold restart_copy_remote.
  rewrite Hfolder, Hfiles. simpl.
  destruct (restart_copy_loop_idempotent cwd defaults
              (computer_uuid remote_data) (restart_files_exclude defaults self)
              (restart_contcar_to_poscar (inputs self)) folder_abspath
              files fs calcinfo Hex) as [calcinfo' Hloop].
  exists calcinfo'. split; [done|].
  by apply restart_copy_loop_calcinfo in Hloop as [? _].
Qed.

Lemma restart_copy_existing_paths_witness :
  is_file Restart.fs_a_is_file ["tmp"; "aiida-folder"; "a"] = true ∧
  ∃ calcinfo',
    restart_copy_remote Example.cwd Example.defaults 3 Example.direct
      Example.folder Restart.fs_a_is_file CalcInfo_new
      = Ok (Restart.fs_a_is_file, calcinfo') ∧
    remote_copy_list calcinfo' =
      remote_copy_list CalcInfo_new ++
      map (copy_entry_of Example.defaults (computer_uuid Example.remote)
             (restart_contcar_to_poscar (inputs Example.direct)))
          (filter (fun e => py_in (entry_name e)
                              (restart_files_exclude Example.defaults
                                 Example.direct) = false)
                  [("CONTCAR", "/scratch/run1/a/CONTCAR", "a");
                   ("OUTCAR", "/scratch/run1/a/OUTCAR", "a");
                   ("job_tmpl.json", "/scratch/run1/b/job_tmpl.json", "b")]).
Proof.
  split; [reflexivity|].
  apply (restart_copy_existing_paths Example.cwd Example.defaults 3
           Example.direct Example.remote).
  - reflexivity.
  - vm_compute. reflexivity.
  - intros e He Hkept.
    repeat (apply elem_of_cons in He as [->|He]); [reflexivity..| |].
    + vm_compute in Hkept. discriminate.
    + by apply elem_of_nil in He.
Defined.

(** X8.  [restart_copy_remote] does not look at what the copy list
    holds: run again on the file system and the [calcinfo] it left, it
    leaves the file system as it is and writes the same instructions
    once more, behind those of the first run. *)
Theorem restart_copy_twice (cwd : string) (defaults : Defaults)
    (fuel : nat) (self : CalculationBase) (remote_data : RemoteData)
    (files : list FileEntry) (folder_abspath : string) (fs : lnode)
    (calcinfo : CalcInfo) :
  restart_folder (inputs self) = Some remote_data →
  remote_filelist cwd fuel remote_data "." = Ok files →
  (∀ e, e ∈ files →
     py_in (entry_name e) (restart_files_exclude defaults self) = false →
     no_file_on fs (local_parent cwd folder_abspath e)) →
  let written :=
    map (copy_entry_of defaults (computer_uuid remote_data)
           (restart_contcar_to_poscar (inputs self)))
        (filter (fun e => py_in (entry_name e)
                            (restart_files_exclude defaults self) = false)
                files) in
  ∃ fs1 calcinfo1 calcinfo2,
    restart_copy_remote cwd defaults fuel self folder_abspath fs calcinfo
      = Ok (fs1, calcinfo1) ∧
    restart_copy_remote cwd defaults fuel self folder_abspath fs1 calcinfo1
      = Ok (fs1, calcinfo2) ∧
    remote_copy_list calcinfo1 = remote_copy_list calcinfo ++ written ∧
    remote_copy_list calcinfo2 =
      remote_copy_list calcinfo ++ written ++ written.
Proof.
  intros Hfolder Hfiles Hno written. unfold restart_copy_remote.
  rewrite Hfolder, Hfiles. simpl.
  destruct (restart_copy_loop_grown cwd defaults (computer_uuid remote_data)
              (restart_files_exclude defaults self)
              (restart_contcar_to_poscar (inputs self)) folder_abspath
              files fs calcinfo Hno) as (fs1 & calcinfo1 & Hloop & Hd & Hf).
  destruct (restart_copy_loop_idempotent cwd defaults
              (computer_uuid remote_data) (restart_files_exclude defaults self)
              (restart_contcar_to_poscar (inputs self)) folder_abspath
              files fs1 calcinfo1) as [calcinfo2 Hloop2].
  { intros e He Hkept. rewrite path_exists_split.
    assert (is_dir fs1 (local_parent cwd folder_abspath e) = true) as ->;
      [|done].
    apply Hd. right. by exists e. }
  exists fs1, calcinfo1, calcinfo2. split_and!; [done..| |].
  - by apply restart_copy_loop_calcinfo in Hloop as [? _].
  - apply restart_copy_loop_calcinfo in Hloop as [Hlist1 _].
    apply restart_copy_loop_calcinfo in Hloop2 as [Hlist2 _].
    fold written in Hlist1, Hlist2. by rewrite Hlist2, Hlist1, <- app_assoc.
Qed.

Lemma restart_copy_twice_witness :
  ∃ fs1 calcinfo1 calcinfo2,
    restart_copy_remote Example.cwd Example.defaults 3 Example.direct
      Example.folder Example.fs CalcInfo_new = Ok (fs1, calcinfo1) ∧
    restart_copy_remote Example.cwd Example.defaults 3 Example.direct
      Example.folder fs1 calcinfo1 = Ok (fs1, calcinfo2) ∧
    remote_copy_list calcinfo1 =
      remote_copy_list CalcInfo_new ++
      map (copy_entry_of Example.defaults (computer_uuid Example.remote)
             (restart_contcar_to_poscar (inputs Example.direct)))
          (filter (fun e => py_in (entry_name e)
                              (restart_files_exclude Example.defaults
                                 Example.direct) = false)
                  [("CONTCAR", "/scratch/run1/a/CONTCAR", "a");
                   ("OUTCAR", "/scratch/run1/a/OUTCAR", "a");
                   ("job_tmpl.json", "/scratch/run1/b/job_tmpl.json", "b")]) ∧
    remote_copy_list calcinfo2 =
      remote_copy_list CalcInfo_new ++
      map (copy_entry_of Example.defaults (computer_uuid Example.remote)
             (restart_contcar_to_poscar (inputs Example.direct)))
          (filter (fun e => py_in (entry_name e)
                              (restart_files_exclude Example.defaults
                                 Example.direct) = false)
                  [("CONTCAR", "/scratch/run1/a/CONTCAR", "a");
                   ("OUTCAR", "/scratch/run1/a/OUTCAR", "a");
                   ("job_tmpl.json", "/scratch/run1/b/job_tmpl.json", "b")]) ++
      map (copy_entry_of Example.defaults (computer_uuid Example.remote)
             (restart_contcar_to_poscar (inputs Example.direct)))
          (filter (fun e => py_in (entry_name e)
                              (restart_files_exclude Example.defaults
                                 Example.direct) = false)
                  [("CONTCAR", "/scratch/run1/a/CONTCAR", "a");
                   ("OUTCAR", "/scratch/run1/a/OUTCAR", "a");
                   ("job_tmpl.json", "/scratch/run1/b/job_tmpl.json", "b")]).
Proof.
  apply (restart_copy_twice Example.cwd Example.defaults 3
           Example.direct Example.remote).
  - reflexivity.
  - vm_compute. reflexivity.
  - intros e He _ q Hq.
    assert (q `prefix_of` ["tmp"; "aiida-folder"; "a"] ∨
            q `prefix_of` ["tmp"; "aiida-folder"; "b"]) as Hq'.
    { repeat (apply elem_of_cons in He as [->|He]); [by left..|by right|].
      by apply elem_of_nil in He. }
    clear He Hq.
    assert (∀ c, q `prefix_of` ["tmp"; "aiida-folder"; c] →
                 is_file Example.fs q = false) as Hc.
    { intros c [r Hr].
      destruct q as [|x1 [|x2 [|x3 [|x4 q]]]]; simplify_eq/=; done. }
    destruct Hq' as [Hq'|Hq']; by eapply Hc.
Defined.

(** ** The targets of the copy instructions *)

(** X9.  With [contcar_to_poscar] set, a remote directory that holds
    both a CONTCAR and a POSCAR file yields two copy instructions with
    one and the same target, the POSCAR of this directory: the remote
    POSCAR is not dropped in favour of the renamed CONTCAR, and the two
    instructions have different sources. *)
Theorem contcar_poscar_same_target (cwd : string) (defaults : Defaults)
    (fuel : nat) (self : CalculationBase) (remote_data : RemoteData)
    (files : list FileEntry) (folder_abspath : string) (fs fs' : lnode)
    (calcinfo calcinfo' : CalcInfo) (e1 e2 : FileEntry) :
  restart_folder (inputs self) = Some remote_data →
  listdir_valid_names remote_data →
  restart_contcar_to_poscar (inputs self) = true →
  FNAMES_contcar defaults ≠ FNAMES_poscar defaults →
  py_in (FNAMES_contcar defaults) (restart_files_exclude defaults self)
    = false →
  py_in (FNAMES_poscar defaults) (restart_files_exclude defaults self)
    = false →
  remote_filelist cwd fuel remote_data "." = Ok files →
  restart_copy_remote cwd defaults fuel self folder_abspath fs calcinfo
    = Ok (fs', calcinfo') →
  e1 ∈ files → e2 ∈ files →
  entry_name e1 = FNAMES_contcar defaults →
  entry_name e2 = FNAMES_poscar defaults →
  entry_relpath e1 = entry_relpath e2 →
  let target := entry_relpath e1 +:+ "/" +:+ FNAMES_poscar defaults in
  (computer_uuid remote_data, entry_abspath e1, target)
    ∈ remote_copy_list calcinfo' ∧
  (computer_uuid remote_data, entry_abspath e2, target)
    ∈ remote_copy_list calcinfo' ∧
  entry_abspath e1 ≠ entry_abspath e2.
Proof.
  intros Hfolder Hvalid Hflag Hne Hk1 Hk2 Hfiles H He1 He2 Hn1 Hn2 Hrel target.
  apply restart_copy_remote_inv in H as (rd & files' & Hrd & Hfiles' & Hloop).
  rewrite Hfolder in Hrd. injection Hrd as <-.
  rewrite Hfiles in Hfiles'. injection Hfiles' as <-.
  apply restart_copy_loop_calcinfo in Hloop as [Hlist _].
  rewrite Hlist, Hflag. split_and!.
  - apply elem_of_app. right. apply list_elem_of_fmap. exists e1. split.
    + unfold copy_entry_of, target_name.
      by rewrite Hn1, bool_decide_eq_true_2.
    + apply list_elem_of_filter. by rewrite Hn1.
  - apply elem_of_app. right. apply list_elem_of_fmap. exists e2. split.
    + unfold copy_entry_of, target_name, target. rewrite Hn2, Hrel.
      by destruct (bool_decide _ && true).
    + apply list_elem_of_filter. by rewrite Hn2.
  - intros Habs.
    pose proof (remote_filelist_names _ _ _ _ Hvalid Hfiles) as Hnames.
    rewrite Forall_forall in Hnames.
    pose proof (Hnames e1 He1) as H1. pose proof (Hnames e2 He2) as H2.
    rewrite Habs, H2 in H1. injection H1 as H1. congruence.
Qed.

Lemma contcar_poscar_same_target_witness :
  ("computer-uuid", "/scratch/run2/relax/CONTCAR", "relax/POSCAR")
    ∈ remote_copy_list Restart.calcinfo_after ∧
  ("computer-uuid", "/scratch/run2/relax/POSCAR", "relax/POSCAR")
    ∈ remote_copy_list Restart.calcinfo_after ∧
  "/scratch/run2/relax/CONTCAR" ≠ "/scratch/run2/relax/POSCAR".
Proof.
  apply (contcar_poscar_same_target Example.cwd Example.defaults 4
           Restart.run Restart.remote Restart.files Example.folder
           Example.fs Restart.fs_after CalcInfo_new Restart.calcinfo_after
           ("CONTCAR", "/scratch/run2/relax/CONTCAR", "relax")
           ("POSCAR", "/scratch/run2/relax/POSCAR", "relax")).
  - reflexivity.
  - apply tree_remote_valid_names. vm_compute. reflexivity.
  - reflexivity.
  - discriminate.
  - vm_compute. reflexivity.
  - vm_compute. reflexivity.
  - vm_compute. reflexivity.
  - vm_compute. reflexivity.
  - apply list_elem_of_further, list_elem_of_here.
  - do 2 apply list_elem_of_further. apply list_elem_of_here.
  - reflexivity.
  - reflexivity.
  - reflexivity.
Defined.

Lemma NoDup_fmap_filter {A B : Type} (f : A → B) (P : A → Prop)
    `{∀ x, Decision (P x)} (l : list A) :
  NoDup (f <$> l) → NoDup (f <$> filter P l).
Proof.
  induction l as [|a l IH]; [done|]. rewrite fmap_cons, NoDup_cons.
  intros [Ha Hnd]. rewrite filter_cons.
  destruct (decide (P a)); [|by apply IH].
  rewrite fmap_cons. apply NoDup_cons. split; [|by apply IH].
  intros (y & Hy & Hin)%list_elem_of_fmap. apply Ha.
  apply list_elem_of_fmap. exists y. split; [done|].
  by apply list_elem_of_filter in Hin as [_ ?].
Qed.

(** The target written for a file tells its directory and its name. *)
Lemma target_inj (d1 d2 : list string) (n1 n2 : string) :
  Forall (fun x => valid_name x = true) d1 →
  Forall (fun x => valid_name x = true) d2 →
  valid_name n1 = true → valid_name n2 = true →
  rel_str d1 +:+ "/" +:+ n1 = rel_str d2 +:+ "/" +:+ n2 →
  d1 = d2 ∧ n1 = n2.
Proof.
  intros Hd1 Hd2 Hn1 Hn2 Heq. apply (f_equal components) in Heq.
  rewrite !components_app in Heq.
  destruct (rel_str_spec d1 (Forall_valid_kept _ Hd1)) as [_ Hc1].
  destruct (rel_str_spec d2 (Forall_valid_kept _ Hd2)) as [_ Hc2].
  rewrite Hc1, Hc2, !valid_name_components in Heq by done.
  by apply app_inj_tail in Heq.
Qed.

(** X10.  For a remote folder that is a well-formed tree, no file is
    copied twice: the sources of the instructions written by
    [restart_copy_remote] differ from one another; and with
    [contcar_to_poscar] switched off so do their targets, so that no
    instruction overwrites what another one copied. *)
Theorem restart_copy_distinct_targets (cwd : string) (defaults : Defaults)
    (fuel : nat) (self : CalculationBase) (remote_path uuid : string)
    (entries : list (string * rnode)) (folder_abspath : string)
    (fs fs' : lnode) (calcinfo calcinfo' : CalcInfo) :
  restart_folder (inputs self)
    = Some (tree_remote remote_path uuid (RDir entries)) →
  wf_tree (RDir entries) = true → (depth (RDir entries) < fuel)%nat →
  restart_contcar_to_poscar (inputs self) = false →
  restart_copy_remote cwd defaults fuel self folder_abspath fs calcinfo
    = Ok (fs', calcinfo') →
  ∃ written,
    remote_copy_list calcinfo' = remote_copy_list calcinfo ++ written ∧
    NoDup ((fun m => m.1.2) <$> written) ∧
    NoDup (written.*2).
Proof.
  intros Hfolder Hwf Hfuel Hflag H.
  apply restart_copy_remote_inv in H as (rd & files & Hrd & Hfiles & Hloop).
  rewrite Hfolder in Hrd. injection Hrd as <-.
  apply restart_copy_loop_calcinfo in Hloop as [Hlist _].
  eexists. split; [exact Hlist|].
  destruct (remote_filelist_tree_NoDup _ _ _ _ _ _ Hwf Hfuel Hfiles)
    as [Habs Hpairs].
  change (map ?f ?l) with (f <$> l). rewrite <- !list_fmap_compose. split.
  - by apply (NoDup_fmap_filter entry_abspath).
  - apply (NoDup_fmap_via (fun e => (entry_relpath e, entry_name e)));
      [by apply NoDup_fmap_filter|].
    intros x y [_ Hx]%list_elem_of_filter [_ Hy]%list_elem_of_filter.
    rewrite (remote_filelist_tree_inv _ _ _ _ _ _ Hwf Hfuel Hfiles) in Hx, Hy.
    apply list_elem_of_fmap in Hx as (a & -> & Ha).
    apply list_elem_of_fmap in Hy as (b & -> & Hb).
    destruct (leaf_nodes_of_valid _ _ Hwf Ha) as [Had Han].
    destruct (leaf_nodes_of_valid _ _ Hwf Hb) as [Hbd Hbn].
    simpl. unfold copy_entry_of, target_name. rewrite Hflag, !andb_false_r.
    cbn [leaf_entry entry_relpath entry_name fst snd].
    intros [-> ->]%target_inj; done.
Qed.

Lemma restart_copy_distinct_targets_witness :
  ∃ written,
    remote_copy_list Restart.calcinfo_keep_names
      = remote_copy_list CalcInfo_new ++ written ∧
    NoDup ((fun m => m.1.2) <$> written) ∧
    NoDup (written.*2).
Proof.
  apply (restart_copy_distinct_targets Example.cwd Example.defaults 4
           Restart.run_keep_names "/scratch/run2" "computer-uuid"
           [("run", RDir [("sub", RDir [("OUTCAR", RFile)])]);
            ("relax", RDir [("CONTCAR", RFile); ("POSCAR", RFile)])]
           Example.folder Example.fs Restart.fs_after).
  - reflexivity.
  - vm_compute. reflexivity.
  - vm_compute. lia.
  - reflexivity.
  - vm_compute. reflexivity.
Defined.

(** ** The launcher command *)

Lemma py_format_available (kwargs : gmap string pyval) (template : string) :
  keyword_template template →
  (∀ f, f ∈ template_fields template → is_Some (kwargs !! f)) →
  ∃ s, py_format template kwargs = Ok s.
Proof.
  intros Hkw Hall.
  destruct (py_format_keyword kwargs template Hkw)
    as [H|(f & Hf & Hnone & _)]; [done|].
  destruct (Hall f Hf) as [v Hv]. congruence.
Qed.

Lemma format_all_Ok (kwargs : gmap string pyval) (templates : list string) :
  ∀ args, format_all templates kwargs = Ok args ↔
          Forall2 (fun t a => py_format t kwargs = Ok a) templates args.
Proof.
  induction templates as [|t templates IH]; intros args; simpl.
  - split; [by intros [= <-]|by intros ->%Forall2_nil_inv_l].
  - split.
    + destruct (py_format t kwargs) as [s| | |] eqn:Hs; simpl; [|done..].
      destruct (format_all templates kwargs) as [rest| | |] eqn:Hr; simpl;
        [|done..].
      intros [= <-]. constructor; [done|]. by apply IH.
    + intros (s & rest & Hs & Hrest & ->)%Forall2_cons_inv_l.
      apply IH in Hrest. by rewrite Hs, Hrest.
Qed.

Lemma format_all_available (kwargs : gmap string pyval)
    (templates : list string) :
  Forall keyword_template templates →
  (∀ t f, t ∈ templates → f ∈ template_fields t → is_Some (kwargs !! f)) →
  ∃ args, format_all templates kwargs = Ok args.
Proof.
  induction templates as [|t templates IH]; intros Hkw Hall; [by eexists|].
  apply Forall_cons in Hkw as [Ht Hkw]. simpl.
  destruct (py_format_available kwargs t Ht) as [s ->].
  { intros f. apply Hall. by left. }
  destruct (IH Hkw) as [rest ->]; [|by eexists].
  intros t' f Ht'. apply Hall. by right.
Qed.

Lemma mpi_arg_dict_of_Some (job_resource : JobResource) (f : string) :
  is_Some (mpi_arg_dict_of job_resource !! f) ↔
  f = "tot_num_mpiprocs" ∨ f ∈ (items job_resource).*1.
Proof.
  rewrite <- not_eq_None_Some, mpi_arg_dict_of_None. split.
  - intros H. destruct (decide (f = "tot_num_mpiprocs")) as [->|Hne];
      [by left|].
    destruct (decide (f ∈ (items job_resource).*1)); [by right|].
    by destruct H.
  - by intros [->|Hin] [H1 H2].
Qed.

(** X11.  When the job resource was built and the launcher command of
    the computer is made of keyword templates, [vasp_calc_mpi_args]
    returns exactly when every field of the templates is
    [tot_num_mpiprocs] or an item of the job resource.  It returns one
    token for each template, the template filled from these values, in
    the order of the command, and the extra parameters of the user as
    they are. *)
Theorem launcher_fields_available (self : CalculationBase)
    (job_resource : JobResource) :
  let mpirun_command := get_mpirun_command (computer (code (inputs self))) in
  vasp_job_resource self = Ok job_resource →
  Forall keyword_template mpirun_command →
  (∀ t f, t ∈ mpirun_command → f ∈ template_fields t →
          f = "tot_num_mpiprocs" ∨ f ∈ (items job_resource).*1) ↔
  (∃ mpi_base_args,
     vasp_calc_mpi_args self =
       Ok (mpi_base_args, options_mpirun_extra_params (inputs self)) ∧
     length mpi_base_args = length mpirun_command ∧
     Forall2 (fun t a => py_format t (mpi_arg_dict_of job_resource) = Ok a)
       mpirun_command mpi_base_args).
Proof.
  intros mpirun_command Hjob Hkw. unfold vasp_calc_mpi_args.
  rewrite Hjob. simpl. fold mpirun_command. split.
  - intros Hall.
    destruct (format_all_available (mpi_arg_dict_of job_resource)
                mpirun_command Hkw) as [args Hargs].
    { intros t f Ht Hf. apply mpi_arg_dict_of_Some. by apply (Hall t). }
    exists args. rewrite Hargs. split; [done|].
    apply format_all_Ok in Hargs. split; [|done].
    symmetry. by eapply Forall2_length.
  - intros (args & _ & _ & Hargs) t f Ht Hf.
    apply mpi_arg_dict_of_Some.
    apply list_elem_of_lookup in Ht as [i Hi].
    destruct (Forall2_lookup_l _ _ _ _ _ Hargs Hi) as (a & _ & Ha).
    by eapply py_format_Ok_fields.
Qed.

Lemma launcher_fields_available_witness :
  (∀ t f, t ∈ ["mpirun"; "-np"; "{tot_num_mpiprocs}"] →
          f ∈ template_fields t →
          f = "tot_num_mpiprocs" ∨
          f ∈ ["num_machines"; "num_mpiprocs_per_machine"]) ↔
  (∃ mpi_base_args,
     vasp_calc_mpi_args Example.direct =
       Ok (mpi_base_args, ["--bind-to"; "core"]) ∧
     length mpi_base_args = 3%nat ∧
     Forall2 (fun t a =>
                py_format t
                  (mpi_arg_dict_of
                     (mkJobResource
                        [("num_machines", PyInt 2);
                         ("num_mpiprocs_per_machine", PyInt 16)] 32)) = Ok a)
       ["mpirun"; "-np"; "{tot_num_mpiprocs}"] mpi_base_args).
Proof.
  apply (launcher_fields_available Example.direct
           (mkJobResource
              [("num_machines", PyInt 2);
               ("num_mpiprocs_per_machine", PyInt 16)] 32)).
  - vm_compute. reflexivity.
  - repeat constructor; vm_compute; try reflexivity; repeat constructor.
Defined.

Lemma render_brace_free (kwargs : gmap string pyval) (s : string) :
  brace_free s = true →
  ∀ out, render kwargs (scan_format s None).1 (scan_format s None).2 out
         = Ok (out +:+ s).
Proof.
  induction s as [|c s IH]; intros Hs out.
  - simpl. by rewrite string_app_nil_r.
  - simpl in Hs. apply andb_true_iff in Hs as [Hc Hs].
    apply andb_true_iff in Hc as [Hl%negb_true_iff Hr%negb_true_iff].
    cbn [scan_format]. rewrite Hl, Hr. unfold scan_cons. cbn [fst snd render].
    rewrite (IH Hs). by rewrite string_app_assoc.
Qed.

(** A string without braces is left as it is by [str.format]. *)
Lemma py_format_brace_free (kwargs : gmap string pyval) (s : string) :
  brace_free s = true → py_format s kwargs = Ok s.
Proof.
  intros Hs. unfold py_format.
  pose proof (render_brace_free kwargs s Hs "") as H.
  by destruct (scan_format s None).
Qed.

Lemma format_all_brace_free (kwargs : gmap string pyval)
    (templates : list string) :
  Forall (fun t => brace_free t = true) templates →
  format_all templates kwargs = Ok templates.
Proof.
  induction 1 as [|t templates Ht _ IH]; [done|].
  simpl. by rewrite (py_format_brace_free kwargs t Ht), IH.
Qed.

(** X12.  A launcher command none of whose tokens holds a brace is
    returned as it is by [vasp_calc_mpi_args], whatever the job resource
    built by the scheduler, and [vasp_run_line] puts it in front of the
    extra parameters and the executable. *)
Theorem launcher_without_fields (self : CalculationBase)
    (job_resource : JobResource) :
  let mpirun_command := get_mpirun_command (computer (code (inputs self))) in
  vasp_job_resource self = Ok job_resource →
  Forall (fun t => brace_free t = true) mpirun_command →
  options_withmpi (inputs self) = true →
  vasp_calc_mpi_args self =
    Ok (mpirun_command, options_mpirun_extra_params (inputs self)) ∧
  vasp_run_line self =
    Ok (mpirun_command ++ options_mpirun_extra_params (inputs self) ++
        [get_execname (code (inputs self))]).
Proof.
  intros mpirun_command Hjob Hfree Hmpi.
  assert (vasp_calc_mpi_args self =
    Ok (mpirun_command, options_mpirun_extra_params (inputs self))) as Hargs.
  { unfold vasp_calc_mpi_args. rewrite Hjob. simpl. fold mpirun_command.
    by rewrite format_all_brace_free. }
  split; [done|]. unfold vasp_run_line. by rewrite Hmpi, Hargs.
Qed.

Lemma launcher_without_fields_witness :
  vasp_calc_mpi_args
    (mkCalculation "calc-uuid"
       (mkInputs
          (mkCode "vasp-uuid" "vasp_std"
             (mkComputer node_number_scheduler (Some 16) ["srun"; "--mpi=pmi2"]))
          true Example.resources ["--bind-to"; "core"] None None None true))
  = Ok (["srun"; "--mpi=pmi2"], ["--bind-to"; "core"]) ∧
  vasp_run_line
    (mkCalculation "calc-uuid"
       (mkInputs
          (mkCode "vasp-uuid" "vasp_std"
             (mkComputer node_number_scheduler (Some 16) ["srun"; "--mpi=pmi2"]))
          true Example.resources ["--bind-to"; "core"] None None None true))
  = Ok (["srun"; "--mpi=pmi2"] ++ ["--bind-to"; "core"] ++ ["vasp_std"]).
Proof.
  apply (launcher_without_fields
           (mkCalculation "calc-uuid"
              (mkInputs
                 (mkCode "vasp-uuid" "vasp_std"
                    (mkComputer node_number_scheduler (Some 16)
                       ["srun"; "--mpi=pmi2"]))
                 true Example.resources ["--bind-to"; "core"] None None None
                 true))
           (mkJobResource
              [("num_machines", PyInt 2);
               ("num_mpiprocs_per_machine", PyInt 16)] 32)).
  - vm_compute. reflexivity.
  - repeat constructor.
  - reflexivity.
Defined.

Lemma render_positional (kwargs : gmap string pyval) (ps : list piece)
    (fin : scan_end) (f : string) (fields : list string) :
  pieces_fields ps = f :: fields → is_positional f = true →
  ∀ out, render kwargs ps fin out = Raise (positional_error f).
Proof.
  induction ps as [|[c|name] ps IH]; intros Hf Hpos out; [done| |].
  - simpl. by apply IH.
  - change (pieces_fields (Field name :: ps))
      with (name :: pieces_fields ps) in Hf.
    injection Hf as -> _. simpl. by rewrite Hpos.
Qed.

Lemma format_all_app (kwargs : gmap string pyval) (l1 l2 : list string) :
  format_all (l1 ++ l2) kwargs =
  (a ← format_all l1 kwargs; b ← format_all l2 kwargs; Ok (a ++ b)).
Proof.
  induction l1 as [|t l1 IH]; simpl.
  - by destruct (format_all l2 kwargs).
  - destruct (py_format t kwargs); simpl; [|done..]. rewrite IH.
    destruct (format_all l1 kwargs); simpl; [|done..].
    by destruct (format_all l2 kwargs).
Qed.

(** X13.  The templates are filled from keyword arguments only.  A
    token of the launcher command whose first field is not read as a
    keyword, the tokens before it holding no brace, makes
    [vasp_calc_mpi_args] raise, and [vasp_run_line] with it when MPI is
    asked for: [IndexError] for the empty name and for a number that
    fits an index, as in [{}] and [{0}], and [ValueError] for digits
    that exceed the largest index, as in [{99999999999999999999}],
    whatever follows these digits in the name. *)
Theorem positional_launcher_field (self : CalculationBase)
    (job_resource : JobResource) (before after : list string)
    (template field : string) (fields : list string) :
  vasp_job_resource self = Ok job_resource →
  get_mpirun_command (computer (code (inputs self)))
    = before ++ template :: after →
  Forall (fun t => brace_free t = true) before →
  template_fields template = field :: fields →
  is_positional field = true →
  let error :=
    match get_integer field 0 with
    | TooManyDigits => ValueError "Too many decimal digits in format string"
    | _ => IndexError
    end in
  vasp_calc_mpi_args self = Raise error ∧
  vasp_run_line self =
    if options_withmpi (inputs self) then Raise error
    else Ok [get_execname (code (inputs self))].
Proof.
  intros Hjob Hcmd Hfree Hfields Hpos error.
  assert (vasp_calc_mpi_args self = Raise error) as Hargs.
  { unfold vasp_calc_mpi_args. rewrite Hjob, Hcmd. simpl.
    rewrite format_all_app, (format_all_brace_free _ _ Hfree). simpl.
    unfold py_format, template_fields in *.
    destruct (scan_format template None) as [ps fin].
    by rewrite (render_positional _ ps fin field fields Hfields Hpos). }
  split; [done|]. unfold vasp_run_line.
  destruct (options_withmpi (inputs self)); [by rewrite Hargs|done].
Qed.

Lemma positional_launcher_field_witness :
  vasp_calc_mpi_args
    (mkCalculation "calc-uuid"
       (mkInputs
          (mkCode "vasp-uuid" "vasp_std"
             (mkComputer node_number_scheduler (Some 16)
                ["mpirun"; "-np"; "{99999999999999999999}"]))
          true Example.resources [] None None None true))
  = Raise (ValueError "Too many decimal digits in format string") ∧
  vasp_run_line
    (mkCalculation "calc-uuid"
       (mkInputs
          (mkCode "vasp-uuid" "vasp_std"
             (mkComputer node_number_scheduler (Some 16)
                ["mpirun"; "-np"; "{99999999999999999999}"]))
          true Example.resources [] None None None true))
  = Raise (ValueError "Too many decimal digits in format string").
Proof.
  apply (positional_launcher_field
           (mkCalculation "calc-uuid"
              (mkInputs
                 (mkCode "vasp-uuid" "vasp_std"
                    (mkComputer node_number_scheduler (Some 16)
                       ["mpirun"; "-np"; "{99999999999999999999}"]))
                 true Example.resources [] None None None true))
           (mkJobResource
              [("num_machines", PyInt 2);
               ("num_mpiprocs_per_machine", PyInt 16)] 32)
           ["mpirun"; "-np"] [] "{99999999999999999999}"
           "99999999999999999999" []).
  - vm_compute. reflexivity.
  - reflexivity.
  - repeat constructor.
  - reflexivity.
  - reflexivity.
Defined.

(** How [str.format] reads field names at the largest index: the
    empty name and numbers up to [PY_SSIZE_T_MAX] are indices, one more
    is an error, also in front of a letter; a digit in front of a letter
    is a keyword. *)
Example field_names :
  py_format "{}" ∅ = Raise IndexError ∧
  py_format "{0}" ∅ = Raise IndexError ∧
  py_format "{9223372036854775807}" ∅ = Raise IndexError ∧
  py_format "{9223372036854775808}" ∅
    = Raise (ValueError "Too many decimal digits in format string") ∧
  py_format "{9223372036854775808a}" ∅
    = Raise (ValueError "Too many decimal digits in format string") ∧
  py_format "{000000000000000000007}" ∅ = Raise IndexError ∧
  py_format "{9a}" ∅ = Raise (KeyError "9a") ∧
  py_format "{9a}" {["9a" := PyInt 6]} = Ok "6".
Proof. split_and!; vm_compute; reflexivity. Qed.

Lemma foldl_insert_union (l : list (string * pyval)) :
  ∀ d : gmap string pyval,
    NoDup l.*1 →
    foldl (fun d kv => <[kv.1 := kv.2]> d) d l = list_to_map l ∪ d.
Proof.
  induction l as [|[k v] l IH]; intros d Hnd.
  - simpl. by rewrite (left_id_L ∅ (∪)).
  - simpl in *. apply NoDup_cons in Hnd as [Hk Hnd].
    rewrite (IH _ Hnd), <- insert_union_l.
    by rewrite insert_union_r by by apply not_elem_of_list_to_map_1.
Qed.

Lemma py_format_tot_num_mpiprocs (kwargs : gmap string pyval) (v : pyval) :
  kwargs !! "tot_num_mpiprocs" = Some v →
  py_format "{tot_num_mpiprocs}" kwargs = Ok (py_str v).
Proof.
  intros Hv. unfold py_format.
  assert (scan_format "{tot_num_mpiprocs}" None
          = ([Field "tot_num_mpiprocs"], ScanDone)) as -> by reflexivity.
  cbn [render].
  assert (is_positional "tot_num_mpiprocs" = false) as -> by reflexivity.
  by rewrite Hv.
Qed.

(** X14.  The dictionary that fills the templates holds the items of
    the job resource, and the total number of processes under
    [tot_num_mpiprocs] where the job resource has no item of this name:
    an item of the job resource wins over the total computed by
    [get_tot_num_mpiprocs()], in the dictionary and in what
    [{tot_num_mpiprocs}] is replaced with. *)
Theorem mpi_arg_dict_items (job_resource : JobResource) :
  NoDup (items job_resource).*1 →
  mpi_arg_dict_of job_resource =
    list_to_map (items job_resource) ∪
    {["tot_num_mpiprocs" := PyInt (get_tot_num_mpiprocs job_resource)]} ∧
  (∀ k v, (k, v) ∈ items job_resource →
          mpi_arg_dict_of job_resource !! k = Some v) ∧
  (∀ v, ("tot_num_mpiprocs", v) ∈ items job_resource →
        py_format "{tot_num_mpiprocs}" (mpi_arg_dict_of job_resource)
          = Ok (py_str v)).
Proof.
  intros Hnd.
  assert (mpi_arg_dict_of job_resource =
    list_to_map (items job_resource) ∪
    {["tot_num_mpiprocs" := PyInt (get_tot_num_mpiprocs job_resource)]})
    as Heq.
  { unfold mpi_arg_dict_of. by apply foldl_insert_union. }
  assert (∀ k v, (k, v) ∈ items job_resource →
    mpi_arg_dict_of job_resource !! k = Some v) as Hitems.
  { intros k v Hin. rewrite Heq. apply lookup_union_Some_l.
    by apply elem_of_list_to_map_1. }
  split_and!; [done..|].
  intros v Hin. apply py_format_tot_num_mpiprocs. by apply Hitems.
Qed.

Lemma mpi_arg_dict_items_witness :
  mpi_arg_dict_of
    (mkJobResource
       [("parallel_env", PyStr "mpi"); ("tot_num_mpiprocs", PyInt 8)] 16) =
    list_to_map [("parallel_env", PyStr "mpi"); ("tot_num_mpiprocs", PyInt 8)] ∪
    {["tot_num_mpiprocs" := PyInt 16]} ∧
  (∀ k v, (k, v) ∈ [("parallel_env", PyStr "mpi");
                    ("tot_num_mpiprocs", PyInt 8)] →
          mpi_arg_dict_of
            (mkJobResource
               [("parallel_env", PyStr "mpi"); ("tot_num_mpiprocs", PyInt 8)]
               16) !! k = Some v) ∧
  (∀ v, ("tot_num_mpiprocs", v) ∈ [("parallel_env", PyStr "mpi");
                                    ("tot_num_mpiprocs", PyInt 8)] →
        py_format "{tot_num_mpiprocs}"
          (mpi_arg_dict_of
             (mkJobResource
                [("parallel_env", PyStr "mpi"); ("tot_num_mpiprocs", PyInt 8)]
                16)) = Ok (py_str v)).
Proof.
  apply (mpi_arg_dict_items
           (mkJobResource
              [("parallel_env", PyStr "mpi"); ("tot_num_mpiprocs", PyInt 8)]
              16)).
  apply (bool_decide_unpack _). vm_compute. exact I.
Defined.

(** ** The resources after a call *)

Lemma resources_with_default_after (self : CalculationBase) :
  resources_with_default (inputs_after_mpi_args self)
    = resources_with_default self.
Proof.
  unfold inputs_after_mpi_args, resources_with_default, with_resources.
  simpl. destruct (get_default_mpiprocs_per_machine _); [|done].
  by rewrite insert_insert_eq.
Qed.

(** X15.  [vasp_calc_mpi_args] writes to the inputs of the process: the
    dictionary of resources it reads is the one the inputs hold, and
    after a call it has the default of the computer under
    [default_mpiprocs_per_machine], in place of what the user may have
    given under this key, its other keys being as they were.  The change
    is made once: a second call finds the dictionary it would store,
    leaves it as it is and returns what the first call returned, and so
    does [vasp_run_line]. *)
Theorem vasp_calc_mpi_args_stores_default (self : CalculationBase) :
  let after := inputs_after_mpi_args self in
  let computer := computer (code (inputs self)) in
  (∀ default_cpus_machine,
     get_default_mpiprocs_per_machine computer = Some default_cpus_machine →
     options_resources (inputs after) !! "default_mpiprocs_per_machine"
       = Some (PyInt default_cpus_machine)) ∧
  (get_default_mpiprocs_per_machine computer = None →
     options_resources (inputs after) = options_resources (inputs self)) ∧
  (∀ key, key ≠ "default_mpiprocs_per_machine" →
     options_resources (inputs after) !! key
       = options_resources (inputs self) !! key) ∧
  inputs_after_mpi_args after = after ∧
  vasp_calc_mpi_args after = vasp_calc_mpi_args self ∧
  vasp_run_line after = vasp_run_line self.
Proof.
  intros after computer. subst after computer.
  assert (vasp_calc_mpi_args (inputs_after_mpi_args self)
          = vasp_calc_mpi_args self) as Hargs.
  { unfold vasp_calc_mpi_args, vasp_job_resource.
    by rewrite resources_with_default_after. }
  split_and!.
  - intros d Hd. cbn [inputs_after_mpi_args with_resources inputs
                      options_resources].
    unfold resources_with_default. rewrite Hd. by rewrite lookup_insert_eq.
  - intros Hd. cbn [inputs_after_mpi_args with_resources inputs
                    options_resources].
    unfold resources_with_default. by rewrite Hd.
  - intros key Hkey. cbn [inputs_after_mpi_args with_resources inputs
                          options_resources].
    unfold resources_with_default.
    destruct (get_default_mpiprocs_per_machine _); [|done].
    by rewrite lookup_insert_ne.
  - unfold inputs_after_mpi_args at 1.
    by rewrite resources_with_default_after.
  - done.
  - unfold vasp_run_line. by rewrite Hargs.
Qed.

(** ** The execution plan and the methods of the subclass *)

(** X16.  [CalculationBase] does not implement the methods that write
    the inputs: whatever its inputs, the folder and the local file
    system, preparing its submission raises [NotImplementedError] and
    returns no plan. *)
Theorem prepare_for_submission_not_implemented (defaults : Defaults)
    (self : CalculationBase) (folder_abspath : string) (fs : lnode) :
  prepare_for_submission defaults create_inputs_for_restart_run
    create_inputs_for_regular_run self folder_abspath fs
  = Raise NotImplementedError.
Proof.
  unfold prepare_for_submission. by destruct (restart_folder (inputs self)).
Qed.

(** X18.  For a subclass that copies the remote folder as its method
    for a restart, the plan returned by [prepare_for_submission] on a
    restart has one copy instruction for each file found on the remote
    whose name is not excluded, in the order of the traversal, and
    nothing else in its lists; it keeps the one code, the identifier and
    the serial run mode it was built with. *)
Theorem prepare_for_submission_restart (cwd : string) (defaults : Defaults)
    (fuel : nat) (regular_run : InputsWriter) (self : CalculationBase)
    (remote_data : RemoteData) (folder_abspath : string) (fs fs' : lnode)
    (plan : CalcInfo) :
  restart_folder (inputs self) = Some remote_data →
  prepare_for_submission defaults (restart_copy_remote cwd defaults fuel)
    regular_run self folder_abspath fs = Ok (fs', plan) →
  ∃ files,
    remote_filelist cwd fuel remote_data "." = Ok files ∧
    remote_copy_list plan =
      map (copy_entry_of defaults (computer_uuid remote_data)
             (restart_contcar_to_poscar (inputs self)))
          (filter (fun e => py_in (entry_name e)
                              (restart_files_exclude defaults self) = false)
                  files) ∧
    calc_uuid plan = Some (uuid self) ∧
    length (codes_info plan) = 1%nat ∧
    local_copy_list plan = [] ∧
    remote_symlink_list plan = [] ∧
    retrieve_temporary_list plan = [] ∧
    codes_run_mode plan = Some SERIAL.
Proof.
  intros Hfolder. unfold prepare_for_submission. rewrite Hfolder.
  intros H.
  apply restart_copy_remote_inv in H as (rd & files & Hrd & Hfiles & Hloop).
  rewrite Hfolder in Hrd. injection Hrd as <-.
  pose proof (restart_copy_loop_frame _ _ _ _ _ _ _ _ _ _ _ Hloop) as Hframe.
  apply restart_copy_loop_calcinfo in Hloop as [Hlist _].
  exists files. split; [done|]. split; [done|].
  rewrite Hframe. by split_and!.
Qed.

Lemma prepare_for_submission_restart_witness :
  ∃ files,
    remote_filelist Example.cwd 3 Example.remote "." = Ok files ∧
    [("computer-uuid", "/scratch/run1/a/CONTCAR", "a/POSCAR");
     ("computer-uuid", "/scratch/run1/a/OUTCAR", "a/OUTCAR")] =
      map (copy_entry_of Example.defaults (computer_uuid Example.remote)
             (restart_contcar_to_poscar (inputs Example.supervised)))
          (filter (fun e => py_in (entry_name e)
                              (restart_files_exclude Example.defaults
                                 Example.supervised) = false)
                  files) ∧
    Some "calc-uuid" = Some (uuid Example.supervised) ∧
    1%nat = 1%nat ∧
    @nil CopyEntry = [] ∧ @nil CopyEntry = [] ∧ @nil string = [] ∧
    Some SERIAL = Some SERIAL.
Proof.
  apply (prepare_for_submission_restart Example.cwd Example.defaults 3
           Example.regular_run Example.supervised Example.remote
           Example.folder Example.fs Example.fs_after
           {| calc_uuid := Some "calc-uuid";
              codes_info :=
                [ {| code_uuid := Some "custodian-uuid";
                     cmdline_params := Some ["run"; "cstdn_spec.yaml"];
                     stdout_name := None; stderr_name := None;
                     withmpi := Some false |} ];
              local_copy_list := [];
              remote_copy_list :=
                [("computer-uuid", "/scratch/run1/a/CONTCAR", "a/POSCAR");
                 ("computer-uuid", "/scratch/run1/a/OUTCAR", "a/OUTCAR")];
              remote_symlink_list := []; retrieve_temporary_list := [];
              codes_run_mode := Some SERIAL |}).
  - reflexivity.
  - vm_compute. reflexivity.
Defined.

(** ** The settings of Custodian *)

(** X19.  When [vasp_run_line] returns and the settings and the
    handlers are mappings, [setup_custodian_settings] builds the
    Custodian settings from the run line as the VASP command, the
    default names of the output and error files, the settings, the
    handlers and [is_neb]: the command is the executable alone without
    MPI, and the launcher tokens, the extra parameters and the
    executable with MPI.  The launcher that the plan of a supervised run
    withholds from Custodian, whose [CodeInfo] is run without MPI and
    names no output or error file, is thus handed to Custodian within
    the VASP command. *)
Theorem custodian_vasp_command (defaults : Defaults) (Mapping T : Type)
    (init : list string → string → string → Mapping → Mapping → bool →
            result T)
    (restart_run regular_run : InputsWriter) (self : CalculationBase)
    (custodian : Code) (settings handlers : Mapping) (is_neb : bool)
    (vasp_cmd : list string) (folder_abspath : string) (fs : lnode) :
  custodian_code (inputs self) = Some custodian →
  vasp_run_line self = Ok vasp_cmd →
  let vasp_exec := get_execname (code (inputs self)) in
  let mpiextra := options_mpirun_extra_params (inputs self) in
  setup_custodian_settings defaults Mapping T init self
    (InputMapping settings) (InputMapping handlers) is_neb
  = init vasp_cmd (STDOUT_FNAME defaults) (STDERR_FNAME defaults)
      settings handlers is_neb ∧
  (if options_withmpi (inputs self)
   then ∃ mpicmd, vasp_calc_mpi_args self = Ok (mpicmd, mpiextra) ∧
                  vasp_cmd = mpicmd ++ mpiextra ++ [vasp_exec]
   else vasp_cmd = [vasp_exec]) ∧
  last vasp_cmd = Some vasp_exec ∧
  ∃ codeinfo calcinfo,
    prepare_for_submission defaults restart_run regular_run self
      folder_abspath fs =
      inputs_writer restart_run regular_run self self folder_abspath fs
        calcinfo ∧
    codes_info calcinfo = [codeinfo] ∧
    code_uuid codeinfo = Some (code_node_uuid custodian) ∧
    (∀ option_withmpi, runs_with_mpi option_withmpi codeinfo = false) ∧
    stdout_name codeinfo = None ∧ stderr_name codeinfo = None.
Proof.
  intros Hcode Hline vasp_exec mpiextra.
  assert (if options_withmpi (inputs self)
          then ∃ mpicmd, vasp_calc_mpi_args self = Ok (mpicmd, mpiextra) ∧
                         vasp_cmd = mpicmd ++ mpiextra ++ [vasp_exec]
          else vasp_cmd = [vasp_exec]) as Hcmd.
  { unfold vasp_run_line in Hline.
    destruct (options_withmpi (inputs self)); [|by injection Hline as <-].
    unfold vasp_calc_mpi_args in *.
    destruct (vasp_job_resource self); [|done..]. simpl in *.
    destruct (format_all _ _) as [mpicmd| | |]; [|done..]. simpl in *.
    exists mpicmd. split; [done|]. by injection Hline as <-. }
  split_and!.
  - unfold setup_custodian_settings. simpl. by rewrite Hline.
  - exact Hcmd.
  - destruct (options_withmpi (inputs self)).
    + destruct Hcmd as (mpicmd & _ & ->). by rewrite !app_assoc, last_snoc.
    + by rewrite Hcmd.
  - assert (∀ calcinfo,
              match restart_folder (inputs self) with
              | Some _ => restart_run self folder_abspath fs calcinfo
              | None => regular_run self folder_abspath fs calcinfo
              end =
              inputs_writer restart_run regular_run self self folder_abspath
                fs calcinfo) as Hcall.
    { intros calcinfo. unfold inputs_writer.
      by destruct (restart_folder (inputs self)). }
    unfold prepare_for_submission. rewrite Hcode, Hcall.
    match goal with
    | |- context [inputs_writer _ _ _ _ _ _ ?calcinfo] =>
        exists (hd (mkCodeInfo None None None None None) (codes_info calcinfo)),
               calcinfo
    end.
    by split_and!.
Qed.

Lemma custodian_vasp_command_witness :
  setup_custodian_settings Example.defaults (list (string * pyval))
    (list string * string * string)
    (fun vasp_cmd stdout stderr _ _ _ => Ok (vasp_cmd, stdout, stderr))
    Example.supervised (InputMapping [("max_errors", PyInt 10)])
    (InputMapping []) false
  = Ok (["mpirun"; "-np"; "32"; "--bind-to"; "core"; "vasp_std"],
        "aiida.out", "aiida.err") ∧
  (∃ mpicmd,
     vasp_calc_mpi_args Example.supervised
       = Ok (mpicmd, ["--bind-to"; "core"]) ∧
     ["mpirun"; "-np"; "32"; "--bind-to"; "core"; "vasp_std"]
       = mpicmd ++ ["--bind-to"; "core"] ++ ["vasp_std"]) ∧
  last ["mpirun"; "-np"; "32"; "--bind-to"; "core"; "vasp_std"]
    = Some "vasp_std" ∧
  ∃ codeinfo calcinfo,
    prepare_for_submission Example.defaults Example.restart_run
      Example.regular_run Example.supervised Example.folder Example.fs =
      inputs_writer Example.restart_run Example.regular_run
        Example.supervised Example.supervised Example.folder Example.fs
        calcinfo ∧
    codes_info calcinfo = [codeinfo] ∧
    code_uuid codeinfo = Some "custodian-uuid" ∧
    (∀ option_withmpi, runs_with_mpi option_withmpi codeinfo = false) ∧
    stdout_name codeinfo = None ∧ stderr_name codeinfo = None.
Proof.
  apply (custodian_vasp_command Example.defaults (list (string * pyval))
           (list string * string * string)
           (fun vasp_cmd stdout stderr _ _ _ => Ok (vasp_cmd, stdout, stderr))
           Example.restart_run Example.regular_run Example.supervised
           Example.custodian [("max_errors", PyInt 10)] [] false
           ["mpirun"; "-np"; "32"; "--bind-to"; "core"; "vasp_std"]
           Example.folder Example.fs).
  - reflexivity.
  - vm_compute. reflexivity.
Defined.



(** ** The working directory of the process *)

Lemma is_absolute_app (a b : string) :
  is_absolute (Path a) = true → is_absolute (Path (a +:+ b)) = true.
Proof.
  destruct a as [|c a]; [done|]. rewrite string_app_cons, !Path_eq.
  unfold is_absolute. simpl.
  destruct (Ascii.eqb c slash); [|done]. intros _.
  by destruct (leading_slashes (a +:+ b)) as [|[|n]].
Qed.

Lemma absolute_of_absolute (cwd : string) (p : PurePath) :
  is_absolute p = true → absolute cwd p = p.
Proof. unfold absolute. by intros ->. Qed.

Lemma filelist_loop_cwd (cwd1 cwd2 : string) (remote_data : RemoteData)
    (rec1 rec2 : string → result (list FileEntry)) :
  is_absolute (Path (get_remote_path remote_data)) = true →
  (∀ s, rec1 s = rec2 s) →
  ∀ names r acc,
    filelist_loop cwd1 rec1 remote_data names r acc =
    filelist_loop cwd2 rec2 remote_data names r acc.
Proof.
  intros Habs Hrec names.
  induction names as [|path names IH]; intros r acc; [done|].
  simpl. rewrite Hrec.
  destruct (rec2 (r +:+ "/" +:+ path)) as [files|e| |]; [by apply IH| |done..].
  destruct (isinstance_OSError e); [|done].
  rewrite !absolute_of_absolute by by apply is_absolute_app.
  apply IH.
Qed.

Lemma remote_filelist_cwd (cwd1 cwd2 : string) (remote_data : RemoteData)
    (fuel : nat) :
  is_absolute (Path (get_remote_path remote_data)) = true →
  ∀ r, remote_filelist cwd1 fuel remote_data r =
       remote_filelist cwd2 fuel remote_data r.
Proof.
  intros Habs. induction fuel as [|fuel IH]; intros r; [done|]. simpl.
  destruct (listdir remote_data r); simpl; [|done..].
  by apply filelist_loop_cwd.
Qed.

Lemma fs_key_cwd (cwd1 cwd2 folder_abspath relpath : string) :
  is_absolute (Path folder_abspath) = true →
  fs_key cwd1 (joinpath (Path folder_abspath) (Path relpath)) =
  fs_key cwd2 (joinpath (Path folder_abspath) (Path relpath)).
Proof.
  intros Habs. unfold fs_key.
  assert (is_absolute (joinpath (Path folder_abspath) (Path relpath)) = true)
    as Hjoin.
  { unfold joinpath. by destruct (is_absolute (Path relpath)) eqn:Hrel. }
  by rewrite !absolute_of_absolute.
Qed.

Lemma restart_copy_loop_cwd (cwd1 cwd2 : string) (defaults : Defaults)
    (uuid : string) (exclude_files : list (option string))
    (overwrite_poscar : bool) (folder_abspath : string)
    (files : list FileEntry) :
  is_absolute (Path folder_abspath) = true →
  ∀ st,
    restart_copy_loop cwd1 defaults uuid exclude_files overwrite_poscar
      folder_abspath files st =
    restart_copy_loop cwd2 defaults uuid exclude_files overwrite_poscar
      folder_abspath files st.
Proof.
  intros Habs. induction files as [|[[name abspath] relpath] files IH];
    intros [fs calcinfo]; [done|].
  cbn [restart_copy_loop]. unfold restart_copy_step.
  rewrite (fs_key_cwd cwd1 cwd2 _ _ Habs).
  destruct (py_in name exclude_files); simpl; [by apply IH|].
  destruct (negb _); simpl; [|by apply IH].
  destruct (Path_mkdir_parents _ _); simpl; [by apply IH|done..].
Qed.

(** X21.  The working directory of the local process, which
    [Path.absolute()] reads, has no part in the result when the paths
    are absolute: for a remote folder with an absolute path the
    traversal returns the same entries from any working directory, and
    with an absolute local folder so does [restart_copy_remote], in the
    instructions it writes and in the directories it makes. *)
Theorem working_directory_independent (cwd1 cwd2 : string)
    (defaults : Defaults) (fuel : nat) (self : CalculationBase)
    (remote_data : RemoteData) (folder_abspath : string) (fs : lnode)
    (calcinfo : CalcInfo) :
  restart_folder (inputs self) = Some remote_data →
  is_absolute (Path (get_remote_path remote_data)) = true →
  is_absolute (Path folder_abspath) = true →
  remote_filelist cwd1 fuel remote_data "." =
    remote_filelist cwd2 fuel remote_data "." ∧
  restart_copy_remote cwd1 defaults fuel self folder_abspath fs calcinfo =
    restart_copy_remote cwd2 defaults fuel self folder_abspath fs calcinfo.
Proof.
  intros Hfolder Hremote Hlocal.
  pose proof (remote_filelist_cwd cwd1 cwd2 remote_data fuel Hremote ".")
    as Hlist.
  split; [done|]. unfold restart_copy_remote. rewrite Hfolder, Hlist.
  destruct (remote_filelist cwd2 fuel remote_data "."); simpl; [|done..].
  by apply restart_copy_loop_cwd.
Qed.

Lemma working_directory_independent_witness :
  remote_filelist "/home/aiida" 3 Example.remote "." =
    remote_filelist "/var/lib/daemon" 3 Example.remote "." ∧
  restart_copy_remote "/home/aiida" Example.defaults 3 Example.direct
    Example.folder Example.fs CalcInfo_new =
    restart_copy_remote "/var/lib/daemon" Example.defaults 3 Example.direct
      Example.folder Example.fs CalcInfo_new.
Proof.
  apply (working_directory_independent "/home/aiida" "/var/lib/daemon"
           Example.defaults 3 Example.direct Example.remote).
  - reflexivity.
  - reflexivity.
  - reflexivity.
Defined.
